(** * ionic-dnd: a shallow embedding of the drag-reorder engine

    The development follows the TypeScript sources of the library:

    - [DragDropProvider] (the drag session: [registerItem], [unregisterItem],
      [findItemAtPosition], [startDrag], [updateDrag], [endDrag] and the
      window-level listeners),
    - [useSortable] (per-item hook: pointer-down activation and the
      displacement effect),
    - [useAutoScroll] ([calculateScrollSpeed], [updateScroll], [stopScroll]),
    - [useDragControls] ([cancel], [complete]),
    - [SortableContainer] ([arrayMove] and [Array.prototype.splice]).

    Conventions of the embedding.

    - A JavaScript [number] that holds a pixel coordinate or a speed is an
      exact rational ([Q]); rounding of IEEE doubles is not modelled.  A
      [number] that holds a list index or [offsetHeight] is an integer ([Z]).
    - [T | null] is [option T].
    - An [HTMLElement] is an opaque handle; its live geometry
      ([getBoundingClientRect], [offsetHeight], scroll metrics) is read from a
      [Dom] snapshot supplied with every handler call.
    - The [Map] of registered items is an association list in insertion
      order, which is the order a JavaScript [Map] iterates in.
    - Calls of the user callbacks ([onDragStart], [onDragMove], [onDragOver],
      [onDragEnd]) and requests of a haptic pulse are collected, in call
      order, in a list of [Notification]s.
    - React state: every handler runs against the committed state of the
      provider (the closure a handler captured is the latest render), and
      the asynchronous [startDrag] is one atomic transition. *)

From Stdlib Require Import ZArith QArith Qminmax Qabs Lqa Lia Bool.
From stdpp Require Import base list strings.

Local Open Scope Z_scope.

(** ** Data model ([types.ts]) *)

(** [Position]: [{x, y}] in viewport coordinates. *)
Record Position : Type := mkPosition { pos_x : Q; pos_y : Q }.

(** [DOMRect] as returned by [getBoundingClientRect]. *)
Record DOMRect : Type := mkRect {
  rect_left : Q; rect_top : Q; rect_right : Q; rect_bottom : Q }.

(** Handle of an [HTMLElement]. *)
Definition Element : Type := nat.

(** The scroll metrics of an element that [calculateScrollSpeed] reads.
    [sm_rect] is [None] when the object has no [getBoundingClientRect]. *)
Record ScrollMetrics : Type := mkScrollMetrics {
  sm_rect : option DOMRect;
  scrollTop : Q; scrollLeft : Q;
  scrollHeight : Q; clientHeight : Q;
  scrollWidth : Q; clientWidth : Q }.

(** Snapshot of the host document at the time a handler runs. *)
Record Dom : Type := mkDom {
  getBoundingClientRect : Element -> DOMRect;
  offsetHeight : Element -> Z;
  scrollMetrics : Element -> ScrollMetrics;
  (* outcome of the ancestor walk of findScrollableElement followed by
     IonContent.getScrollElement() *)
  resolveScrollElement : Element -> option Element;
  innerWidth : Q; innerHeight : Q }.

(** [DragState]. *)
Record DragState : Type := mkDragState {
  isDragging : bool;
  draggedId : option string;
  draggedIndex : option Z;
  overIndex : option Z;
  initialPosition : option Position;
  currentPosition : option Position;
  offset : option Position }.

Inductive Axis : Type := AxisX | AxisY.

(** [AutoScrollConfig]. *)
Record AutoScrollConfig : Type := mkAutoScrollConfig {
  enabled : bool; threshold : Q; maxSpeed : Q; acceleration : Q }.

(** [Required<DragDropContextConfig>]. *)
Record Config : Type := mkConfig {
  autoScroll : AutoScrollConfig;
  activationDelay : Z;
  activationDistance : Q;
  hapticFeedback : bool;
  lockAxis : option Axis }.

Definition DEFAULT_AUTOSCROLL : AutoScrollConfig :=
  {| enabled := true; threshold := 80; maxSpeed := 15; acceleration := 1.5 |}.

Definition DEFAULT_CONFIG : Config :=
  {| autoScroll := DEFAULT_AUTOSCROLL;
     activationDelay := 150;
     activationDistance := 5;
     hapticFeedback := true;
     lockAxis := None |}.

(** The value stored per id in [itemsRef]. *)
Record Item : Type := mkItem { index : Z; element : Element }.

(** [Map<string, {index, element}>] in insertion order. *)
Definition Registry : Type := list (string * Item).

Inductive HapticKind : Type := Light | Medium | Heavy.

(** What the provider calls out to, in call order.  The [item.id] and
    [item.index] of move/over/end events come from [state.draggedId!] and
    [state.draggedIndex!], hence the options. *)
Inductive Notification : Type :=
| NHaptic (kind : HapticKind)
| NDragStart (id : string) (idx : Z)
| NDragMove (id : option string) (idx : option Z) (position delta : Position)
| NDragOver (id : option string) (idx : option Z)
            (over : Z) (overItemId : string) (overItemIndex : Z)
| NDragEnd (id : option string) (fromIndex toIndex : Z) (cancelled : bool).

(** ** Small helpers for JavaScript comparisons *)

Definition Qleb (a b : Q) : bool := Qle_bool a b.
Definition Qltb (a b : Q) : bool := negb (Qle_bool b a).

(** [a !== b] on [number | null]. *)
Definition optZ_neb (a b : option Z) : bool :=
  match a, b with
  | Some u, Some v => negb (u =? v)
  | None, None => false
  | _, _ => true
  end.

(** [id === state.draggedId]. *)
Definition is_dragged (id : string) (dragged : option string) : bool :=
  match dragged with
  | Some d => String.eqb id d
  | None => false
  end.

(** ** The item registry ([itemsRef]) *)

(** [Map.prototype.set]: an existing key keeps its place, a new key goes to
    the end. *)
Fixpoint map_set (m : Registry) (id : string) (it : Item) : Registry :=
  match m with
  | [] => [(id, it)]
  | (k, v) :: m' =>
      if String.eqb k id then (k, it) :: m' else (k, v) :: map_set m' id it
  end.

(** [Map.prototype.delete]. *)
Fixpoint map_delete (m : Registry) (id : string) : Registry :=
  match m with
  | [] => []
  | (k, v) :: m' =>
      if String.eqb k id then m' else (k, v) :: map_delete m' id
  end.

(** [Map.prototype.get]. *)
Fixpoint map_get (m : Registry) (id : string) : option Item :=
  match m with
  | [] => None
  | (k, v) :: m' => if String.eqb k id then Some v else map_get m' id
  end.

Definition registerItem (items : Registry) (id : string) (idx : Z)
    (el : Element) : Registry :=
  map_set items id {| index := idx; element := el |}.

Definition unregisterItem (items : Registry) (id : string) : Registry :=
  map_delete items id.

(** [itemsRef.current.get(id)?.element]. *)
Definition getItemElement (items : Registry) (id : string) : option Element :=
  element <$> map_get items id.

(** [itemsRef.current.get(id)?.index ?? -1]. *)
Definition getItemIndex (items : Registry) (id : string) : Z :=
  default (-1) (index <$> map_get items id).

(** ** Hit test ([findItemAtPosition]) *)

(** The bounds test of the loop body. *)
Definition rect_contains (r : DOMRect) (p : Position) : bool :=
  Qleb (rect_left r) (pos_x p) && Qleb (pos_x p) (rect_right r) &&
  Qleb (rect_top r) (pos_y p) && Qleb (pos_y p) (rect_bottom r).

(** The [for ... of itemsRef.current] loop. *)
Fixpoint findItemAtPosition (dom : Dom) (items : Registry)
    (dragged : option string) (position : Position) : option (string * Z) :=
  match items with
  | [] => None
  | (id, it) :: rest =>
      if is_dragged id dragged then
        findItemAtPosition dom rest dragged position
      else if rect_contains (getBoundingClientRect dom (element it)) position
      then Some (id, index it)
      else findItemAtPosition dom rest dragged position
  end.

(** ** Auto-scroll ([useAutoScroll]) *)

(** The refs of the hook.  [animationFrameRef] records whether an animation
    frame is currently requested. *)
Record AutoScrollRefs : Type := mkAutoScrollRefs {
  scrollElementRef : option Element;
  animationFrameRef : bool;
  isScrollingRef : bool;
  scrollSpeedRef : Position;
  lastScrollPositionRef : Position }.

Definition zeroPosition : Position := {| pos_x := 0; pos_y := 0 |}.

Definition initialAutoScrollRefs : AutoScrollRefs :=
  {| scrollElementRef := None;
     animationFrameRef := false;
     isScrollingRef := false;
     scrollSpeedRef := zeroPosition;
     lastScrollPositionRef := zeroPosition |}.

(** [initScrollContainer]: stores the resolved scroll element and, when
    there is one, its current scroll position. *)
Definition initScrollContainer (dom : Dom) (refs : AutoScrollRefs)
    (el : Element) : AutoScrollRefs :=
  match resolveScrollElement dom el with
  | Some se =>
      {| scrollElementRef := Some se;
         animationFrameRef := animationFrameRef refs;
         isScrollingRef := isScrollingRef refs;
         scrollSpeedRef := scrollSpeedRef refs;
         lastScrollPositionRef :=
           {| pos_x := scrollLeft (scrollMetrics dom se);
              pos_y := scrollTop (scrollMetrics dom se) |} |}
  | None =>
      {| scrollElementRef := None;
         animationFrameRef := animationFrameRef refs;
         isScrollingRef := isScrollingRef refs;
         scrollSpeedRef := scrollSpeedRef refs;
         lastScrollPositionRef := lastScrollPositionRef refs |}
  end.

(** [distance <= 0 ? 1 : 1 - distance / threshold]. *)
Definition intensity (cfg : AutoScrollConfig) (distance : Q) : Q :=
  if Qleb distance 0 then 1 else 1 - distance / threshold cfg.

(** [Math.min(maxSpeed, Math.max(0.1, intensity) * maxSpeed * acceleration)],
    the expression each of the four edge blocks evaluates. *)
Definition edgeSpeed (cfg : AutoScrollConfig) (distance : Q) : Q :=
  Qmin (maxSpeed cfg)
       (Qmax 0.1 (intensity cfg distance) * maxSpeed cfg * acceleration cfg).

(** The rectangle used when the scroll element has no
    [getBoundingClientRect]. *)
Definition viewportRect (dom : Dom) : DOMRect :=
  {| rect_left := 0; rect_top := 0;
     rect_right := innerWidth dom; rect_bottom := innerHeight dom |}.

Definition scrollRect (dom : Dom) (m : ScrollMetrics) : DOMRect :=
  default (viewportRect dom) (sm_rect m).

Definition visibleTop (dom : Dom) (m : ScrollMetrics) : Q :=
  Qmax 0 (rect_top (scrollRect dom m)).
Definition visibleBottom (dom : Dom) (m : ScrollMetrics) : Q :=
  Qmin (innerHeight dom) (rect_bottom (scrollRect dom m)).
Definition visibleLeft (dom : Dom) (m : ScrollMetrics) : Q :=
  Qmax 0 (rect_left (scrollRect dom m)).
Definition visibleRight (dom : Dom) (m : ScrollMetrics) : Q :=
  Qmin (innerWidth dom) (rect_right (scrollRect dom m)).

Definition canScrollUp (m : ScrollMetrics) : bool := Qltb 0 (scrollTop m).
Definition canScrollDown (m : ScrollMetrics) : bool :=
  Qltb (scrollTop m) (scrollHeight m - clientHeight m).
Definition canScrollLeft (m : ScrollMetrics) : bool := Qltb 0 (scrollLeft m).
Definition canScrollRight (m : ScrollMetrics) : bool :=
  Qltb (scrollLeft m) (scrollWidth m - clientWidth m).

Definition distanceFromTop (dom : Dom) (m : ScrollMetrics) (p : Position) : Q :=
  pos_y p - visibleTop dom m.
Definition distanceFromBottom (dom : Dom) (m : ScrollMetrics) (p : Position) : Q :=
  visibleBottom dom m - pos_y p.
Definition distanceFromLeft (dom : Dom) (m : ScrollMetrics) (p : Position) : Q :=
  pos_x p - visibleLeft dom m.
Definition distanceFromRight (dom : Dom) (m : ScrollMetrics) (p : Position) : Q :=
  visibleRight dom m - pos_x p.

(** [calculateScrollSpeed].  [speedY] is assigned by the top block and then
    by the bottom block, [speedX] by the left block and then by the right
    block, as in the source. *)
Definition calculateScrollSpeed (cfg : AutoScrollConfig) (dom : Dom)
    (scrollElement : option Element) (position : Position) : Position :=
  match scrollElement with
  | None => zeroPosition
  | Some se =>
      if negb (enabled cfg) then zeroPosition
      else
        let m := scrollMetrics dom se in
        let speedX := 0%Q in
        let speedY := 0%Q in
        let speedY :=
          if Qltb (distanceFromTop dom m position) (threshold cfg)
             && canScrollUp m
          then (- edgeSpeed cfg (distanceFromTop dom m position))%Q
          else speedY in
        let speedY :=
          if Qltb (distanceFromBottom dom m position) (threshold cfg)
             && canScrollDown m
          then edgeSpeed cfg (distanceFromBottom dom m position)
          else speedY in
        let speedX :=
          if Qltb (distanceFromLeft dom m position) (threshold cfg)
             && canScrollLeft m
          then (- edgeSpeed cfg (distanceFromLeft dom m position))%Q
          else speedX in
        let speedX :=
          if Qltb (distanceFromRight dom m position) (threshold cfg)
             && canScrollRight m
          then edgeSpeed cfg (distanceFromRight dom m position)
          else speedX in
        {| pos_x := speedX; pos_y := speedY |}
  end.

(** [speed.x !== 0 || speed.y !== 0]. *)
Definition speed_nonzero (s : Position) : bool :=
  negb (Qeq_bool (pos_x s) 0) || negb (Qeq_bool (pos_y s) 0).

(** [updateScroll]. *)
Definition updateScroll (cfg : AutoScrollConfig) (dom : Dom)
    (refs : AutoScrollRefs) (position : Position) : AutoScrollRefs :=
  if negb (enabled cfg) then refs
  else
    let speed := calculateScrollSpeed cfg dom (scrollElementRef refs) position in
    if speed_nonzero speed && negb (animationFrameRef refs) then
      {| scrollElementRef := scrollElementRef refs;
         animationFrameRef := true;
         isScrollingRef := true;
         scrollSpeedRef := speed;
         lastScrollPositionRef := lastScrollPositionRef refs |}
    else if negb (speed_nonzero speed) then
      {| scrollElementRef := scrollElementRef refs;
         animationFrameRef := animationFrameRef refs;
         isScrollingRef := false;
         scrollSpeedRef := speed;
         lastScrollPositionRef := lastScrollPositionRef refs |}
    else
      {| scrollElementRef := scrollElementRef refs;
         animationFrameRef := animationFrameRef refs;
         isScrollingRef := isScrollingRef refs;
         scrollSpeedRef := speed;
         lastScrollPositionRef := lastScrollPositionRef refs |}.

(** [stopScroll]. *)
Definition stopScroll (refs : AutoScrollRefs) : AutoScrollRefs :=
  {| scrollElementRef := scrollElementRef refs;
     animationFrameRef := false;
     isScrollingRef := false;
     scrollSpeedRef := zeroPosition;
     lastScrollPositionRef := lastScrollPositionRef refs |}.

(** ** The drag session ([DragDropProvider]) *)

(** State and refs held by one provider instance. *)
Record Provider : Type := mkProvider {
  state : DragState;
  scrollOffset : Position;
  itemsRef : Registry;
  draggedElementRef : option Element;
  initialIndexRef : option Z;
  autoScrollRefs : AutoScrollRefs }.

(** The value passed to [useState] and again to [setState] in [endDrag]. *)
Definition idleState : DragState :=
  {| isDragging := false;
     draggedId := None;
     draggedIndex := None;
     overIndex := None;
     initialPosition := None;
     currentPosition := None;
     offset := None |}.

Definition initialProvider : Provider :=
  {| state := idleState;
     scrollOffset := zeroPosition;
     itemsRef := [];
     draggedElementRef := None;
     initialIndexRef := None;
     autoScrollRefs := initialAutoScrollRefs |}.

Definition set_itemsRef (p : Provider) (items : Registry) : Provider :=
  {| state := state p;
     scrollOffset := scrollOffset p;
     itemsRef := items;
     draggedElementRef := draggedElementRef p;
     initialIndexRef := initialIndexRef p;
     autoScrollRefs := autoScrollRefs p |}.

(** [if (config.hapticFeedback) triggerHaptic(kind)]. *)
Definition haptic (cfg : Config) (kind : HapticKind) : list Notification :=
  if hapticFeedback cfg then [NHaptic kind] else [].

(** [startDrag]. *)
Definition startDrag (cfg : Config) (dom : Dom) (p : Provider)
    (id : string) (idx : Z) (position : Position) (el : Element)
    : Provider * list Notification :=
  let rect := getBoundingClientRect dom el in
  let off := {| pos_x := pos_x position - rect_left rect;
                pos_y := pos_y position - rect_top rect |} in
  ({| state :=
        {| isDragging := true;
           draggedId := Some id;
           draggedIndex := Some idx;
           overIndex := Some idx;
           initialPosition := Some position;
           currentPosition := Some position;
           offset := Some off |};
      scrollOffset := zeroPosition;
      itemsRef := itemsRef p;
      draggedElementRef := Some el;
      initialIndexRef := Some idx;
      autoScrollRefs := initScrollContainer dom (autoScrollRefs p) el |},
   haptic cfg Medium ++ [NDragStart id idx]).

(** The axis lock at the head of [updateDrag]. *)
Definition applyLockAxis (cfg : Config) (st : DragState)
    (position : Position) : Position :=
  match lockAxis cfg, initialPosition st with
  | Some AxisX, Some ip => {| pos_x := pos_x position; pos_y := pos_y ip |}
  | Some AxisY, Some ip => {| pos_x := pos_x ip; pos_y := pos_y position |}
  | _, _ => position
  end.

(** [delta] of the move event. *)
Definition moveDelta (st : DragState) (finalPosition : Position) : Position :=
  match initialPosition st with
  | Some ip => {| pos_x := pos_x finalPosition - pos_x ip;
                  pos_y := pos_y finalPosition - pos_y ip |}
  | None => zeroPosition
  end.

(** [updateDrag]. *)
Definition updateDrag (cfg : Config) (dom : Dom) (p : Provider)
    (position : Position) : Provider * list Notification :=
  let st := state p in
  if negb (isDragging st) then (p, [])
  else
    let finalPosition := applyLockAxis cfg st position in
    let refs := updateScroll (autoScroll cfg) dom (autoScrollRefs p) finalPosition in
    let overItem := findItemAtPosition dom (itemsRef p) (draggedId st) finalPosition in
    let newOverIndex :=
      match overItem with
      | Some (_, i) => Some i
      | None => overIndex st
      end in
    ({| state :=
          {| isDragging := isDragging st;
             draggedId := draggedId st;
             draggedIndex := draggedIndex st;
             overIndex := newOverIndex;
             initialPosition := initialPosition st;
             currentPosition := Some finalPosition;
             offset := offset st |};
        scrollOffset := scrollOffset p;
        itemsRef := itemsRef p;
        draggedElementRef := draggedElementRef p;
        initialIndexRef := initialIndexRef p;
        autoScrollRefs := refs |},
     (if optZ_neb newOverIndex (overIndex st) then haptic cfg Light else [])
     ++ [NDragMove (draggedId st) (draggedIndex st) finalPosition
                   (moveDelta st finalPosition)]
     ++ match overItem with
        | Some (oid, i) => [NDragOver (draggedId st) (draggedIndex st) i oid i]
        | None => []
        end).

(** [initialIndexRef.current ?? state.draggedIndex ?? 0]. *)
Definition endFromIndex (p : Provider) : Z :=
  match initialIndexRef p with
  | Some i => i
  | None => default 0 (draggedIndex (state p))
  end.

(** [cancelled ? fromIndex : (state.overIndex ?? fromIndex)]. *)
Definition endToIndex (p : Provider) (cancelled : bool) : Z :=
  if cancelled then endFromIndex p
  else default (endFromIndex p) (overIndex (state p)).

(** [endDrag]. *)
Definition endDrag (cfg : Config) (p : Provider) (cancelled : bool)
    : Provider * list Notification :=
  if negb (isDragging (state p)) then (p, [])
  else
    ({| state := idleState;
        scrollOffset := scrollOffset p;
        itemsRef := itemsRef p;
        draggedElementRef := None;
        initialIndexRef := None;
        autoScrollRefs := stopScroll (autoScrollRefs p) |},
     haptic cfg Medium
     ++ [NDragEnd (draggedId (state p)) (endFromIndex p)
                  (endToIndex p cancelled) cancelled]).

(** The events the provider listens to on [window] while
    [state.isDragging]. *)
Inductive WindowEvent : Type :=
| WPointerUp | WPointerCancel | WTouchEnd | WTouchCancel
| WKeyDown (key : string).

(** The listeners of the global effect: [handlePointerUp],
    [handlePointerCancel] and [handleKeyDown]. *)
Definition windowListener (cfg : Config) (p : Provider) (e : WindowEvent)
    : Provider * list Notification :=
  if negb (isDragging (state p)) then (p, [])
  else
    match e with
    | WPointerUp | WTouchEnd => endDrag cfg p false
    | WPointerCancel | WTouchCancel => endDrag cfg p true
    | WKeyDown key =>
        if String.eqb key "Escape" then endDrag cfg p true else (p, [])
    end.

(** [useDragControls]. *)
Definition controlsCancel (cfg : Config) (p : Provider)
    : Provider * list Notification := endDrag cfg p true.
Definition controlsComplete (cfg : Config) (p : Provider)
    : Provider * list Notification := endDrag cfg p false.

(** ** The session as a transition system *)

(** Everything that can reach a provider instance from outside. *)
Inductive Input : Type :=
| IRegisterItem (id : string) (idx : Z) (el : Element)
| IUnregisterItem (id : string)
| IStartDrag (id : string) (idx : Z) (position : Position) (el : Element)
| IUpdateDrag (position : Position)
| IWindow (e : WindowEvent)
| IControlsCancel
| IControlsComplete.

Definition step (cfg : Config) (dom : Dom) (p : Provider) (i : Input)
    : Provider * list Notification :=
  match i with
  | IRegisterItem id idx el =>
      (set_itemsRef p (registerItem (itemsRef p) id idx el), [])
  | IUnregisterItem id =>
      (set_itemsRef p (unregisterItem (itemsRef p) id), [])
  | IStartDrag id idx position el => startDrag cfg dom p id idx position el
  | IUpdateDrag position => updateDrag cfg dom p position
  | IWindow e => windowListener cfg p e
  | IControlsCancel => controlsCancel cfg p
  | IControlsComplete => controlsComplete cfg p
  end.

(** A run: each input comes with the document snapshot it is handled in. *)
Fixpoint run (cfg : Config) (p : Provider) (inputs : list (Dom * Input))
    : Provider * list Notification :=
  match inputs with
  | [] => (p, [])
  | (dom, i) :: rest =>
      let '(p1, out1) := step cfg dom p i in
      let '(p2, out2) := run cfg p1 rest in
      (p2, out1 ++ out2)
  end.

(** States a provider can be in. *)
Inductive reachable (cfg : Config) : Provider -> Prop :=
| reachable_init : reachable cfg initialProvider
| reachable_step p dom i :
    reachable cfg p -> reachable cfg (step cfg dom p i).1.

(** A sequence of pointer moves, each handled by [updateDrag]. *)
Definition pointerMoves (moves : list (Dom * Position)) : list (Dom * Input) :=
  map (fun m => (m.1, IUpdateDrag m.2)) moves.

(** The inputs that take a cancel path into [endDrag(true)]. *)
Definition isCancelInput (i : Input) : bool :=
  match i with
  | IWindow WPointerCancel | IWindow WTouchCancel | IControlsCancel => true
  | IWindow (WKeyDown key) => String.eqb key "Escape"
  | _ => false
  end.

Definition isDragEnd (n : Notification) : bool :=
  match n with NDragEnd _ _ _ _ => true | _ => false end.
Definition isDragOver (n : Notification) : bool :=
  match n with NDragOver _ _ _ _ _ => true | _ => false end.

(** An entry the hit test accepts: not the dragged item, and its rectangle
    contains the position. *)
Definition hitCandidate (dom : Dom) (dragged : option string)
    (position : Position) (entry : string * Item) : bool :=
  negb (is_dragged entry.1 dragged)
  && rect_contains (getBoundingClientRect dom (element entry.2)) position.

(** The session fields that say whether, and what, is being dragged agree. *)
Definition sessionConsistent (st : DragState) : Prop :=
  (isDragging st = true <-> is_Some (draggedId st))
  /\ (isDragging st = true <-> is_Some (draggedIndex st))
  /\ (isDragging st = true -> is_Some (initialPosition st)).

(** ** The per-item hook ([useSortable]) *)

(** Props, refs and local state of one hook instance.
    [activationTimeoutRef] tells whether the ref holds a timer. *)
Record Sortable : Type := mkSortable {
  s_id : string;
  s_index : Z;
  s_disabled : bool;
  elementRef : option Element;
  activationTimeoutRef : bool;
  startPositionRef : option Position;
  isActivatedRef : bool;
  localTransform : option Position }.

(** The fields of a [React.PointerEvent] that the handlers read. *)
Record PointerEvent : Type := mkPointerEvent {
  pointerType : string; button : Z; clientX : Q; clientY : Q }.

(** [state.isDragging && state.draggedId !== id]. *)
Definition isAnotherDragging (st : DragState) (id : string) : bool :=
  isDragging st && negb (is_dragged id (draggedId st)).

(** [handlePointerDown]: records the start position and arms the activation
    timer. *)
Definition handlePointerDown (h : Sortable) (e : PointerEvent) : Sortable :=
  if s_disabled h then h
  else if String.eqb (pointerType e) "mouse" && negb (button e =? 0) then h
  else
    {| s_id := s_id h; s_index := s_index h; s_disabled := s_disabled h;
       elementRef := elementRef h;
       activationTimeoutRef := true;
       startPositionRef := Some {| pos_x := clientX e; pos_y := clientY e |};
       isActivatedRef := false;
       localTransform := localTransform h |}.

(** The callback given to [setTimeout] by [handlePointerDown]; it runs
    [config.activationDelay] ms later unless the timer was cleared. *)
Definition activationTimeout (cfg : Config) (dom : Dom) (p : Provider)
    (h : Sortable) : Sortable * (Provider * list Notification) :=
  match elementRef h, startPositionRef h with
  | Some el, Some sp =>
      ({| s_id := s_id h; s_index := s_index h; s_disabled := s_disabled h;
          elementRef := elementRef h;
          activationTimeoutRef := activationTimeoutRef h;
          startPositionRef := startPositionRef h;
          isActivatedRef := true;
          localTransform := localTransform h |},
       startDrag cfg dom p (s_id h) (s_index h) sp el)
  | _, _ => (h, (p, []))
  end.

(** [elementRef.current] is set. *)
Definition isMounted (h : Sortable) : bool :=
  match elementRef h with
  | Some _ => true
  | None => false
  end.

(** [getItemElement(state.draggedId!)]. *)
Definition draggedElement (items : Registry) (st : DragState) : option Element :=
  match draggedId st with
  | Some d => getItemElement items d
  | None => None
  end.

(** The displacement effect; the result is the new [localTransform].  A
    [null] index compares as [0], as JavaScript's relational operators do.
    When the item is to be displaced but the dragged element is not
    registered, [setLocalTransform] is not called and the previous value
    stays. *)
Definition displacementEffect (dom : Dom) (st : DragState) (items : Registry)
    (h : Sortable) : option Position :=
  if negb (isAnotherDragging st (s_id h)) || negb (isMounted h)
  then None
  else
    let dragged := default 0 (draggedIndex st) in
    let over :=
      match overIndex st with
      | Some o => o
      | None => dragged
      end in
    let idx := s_index h in
    let direction :=
      if dragged <? over then
        (if (dragged <? idx) && (idx <=? over) then Some (-1) else None)
      else if over <? dragged then
        (if (over <=? idx) && (idx <? dragged) then Some 1 else None)
      else None in
    match direction with
    | Some dir =>
        match draggedElement items st with
        | Some de =>
            Some {| pos_x := 0;
                    pos_y := inject_Z (dir * (offsetHeight dom de + 16)) |}
        | None => localTransform h
        end
    | None => None
    end.

(** ** [arrayMove] ([SortableContainer]) *)

Section Arrays.
Context {T : Type}.
(** The value JavaScript yields for a missing element. *)
Variable undefined : T.

(** The clamping of [start] in [Array.prototype.splice]. *)
Definition spliceStart (len start : Z) : nat :=
  Z.to_nat (if start <? 0 then Z.max (len + start) 0 else Z.min start len).

(** The clamping of [deleteCount]. *)
Definition spliceDeleteCount (len : Z) (actualStart : nat)
    (deleteCount : Z) : nat :=
  Z.to_nat (Z.min (Z.max deleteCount 0) (len - Z.of_nat actualStart)).

(** [a.splice(start, deleteCount, ...items)]: the new contents of [a] and
    the array of removed elements. *)
Definition splice (a : list T) (start deleteCount : Z) (items : list T)
    : list T * list T :=
  let len := Z.of_nat (length a) in
  let s := spliceStart len start in
  let dc := spliceDeleteCount len s deleteCount in
  (take s a ++ items ++ drop (s + dc) a, take dc (drop s a)).

(** [const [removed] = ...]. *)
Definition firstOrUndefined (l : list T) : T :=
  match l with
  | v :: _ => v
  | [] => undefined
  end.

(** [arrayMove] on the contents of the arrays. *)
Definition arrayMove (array : list T) (fromIndex toIndex : Z) : list T :=
  let newArray := array in
  let '(newArray, removedItems) := splice newArray fromIndex 1 [] in
  let removed := firstOrUndefined removedItems in
  let '(newArray, _) := splice newArray toIndex 0 [removed] in
  newArray.

(** Arrays are objects: a heap maps an address to the contents of the
    array that lives there. *)
Abbreviation Heap := (list (list T)).

(** [[...array]]: a fresh array with the same contents. *)
Definition spread (h : Heap) (array : nat) : Heap * nat :=
  (h ++ [default [] (h !! array)], length h).

(** [a.splice(...)] in place; returns the address-less removed items. *)
Definition spliceAt (h : Heap) (a : nat) (start deleteCount : Z)
    (items : list T) : Heap * list T :=
  let '(contents, removedItems) :=
    splice (default [] (h !! a)) start deleteCount items in
  (<[a := contents]> h, removedItems).

(** [arrayMove] on the heap: the address of the returned array and the
    heap after the call. *)
Definition arrayMoveAt (h : Heap) (array : nat) (fromIndex toIndex : Z)
    : Heap * nat :=
  let '(h, newArray) := spread h array in
  let '(h, removedItems) := spliceAt h newArray fromIndex 1 [] in
  let removed := firstOrUndefined removedItems in
  let '(h, _) := spliceAt h newArray toIndex 0 [removed] in
  (h, newArray).
End Arrays.

(** ** Vocabulary of the statements *)

(** A vertical shift by [e] pixels, the shape of every [localTransform]. *)
Definition shift (e : Z) : Position := {| pos_x := 0; pos_y := inject_Z e |}.

(** The displacement rule in the words of the specification: backward by one
    extent between origin (exclusive) and over (inclusive) when dragging
    toward higher indices, forward by one extent between over (inclusive)
    and origin (exclusive) when dragging toward lower indices, no shift
    otherwise. *)
Definition spec_displacement (originIndex overIndex idx draggedExtent : Z)
    : option Position :=
  if (originIndex <? overIndex) && (originIndex <? idx) && (idx <=? overIndex)
  then Some (shift (- draggedExtent))
  else if (overIndex <? originIndex) && (overIndex <=? idx) && (idx <? originIndex)
  then Some (shift draggedExtent)
  else None.

(** The four edge blocks of [calculateScrollSpeed], named. *)
Inductive Edge : Type := TopEdge | BottomEdge | LeftEdge | RightEdge.

Definition opposite (e : Edge) : Edge :=
  match e with
  | TopEdge => BottomEdge
  | BottomEdge => TopEdge
  | LeftEdge => RightEdge
  | RightEdge => LeftEdge
  end.

Definition edgeDistance (dom : Dom) (m : ScrollMetrics) (p : Position)
    (e : Edge) : Q :=
  match e with
  | TopEdge => distanceFromTop dom m p
  | BottomEdge => distanceFromBottom dom m p
  | LeftEdge => distanceFromLeft dom m p
  | RightEdge => distanceFromRight dom m p
  end.

Definition edgeCanScroll (m : ScrollMetrics) (e : Edge) : bool :=
  match e with
  | TopEdge => canScrollUp m
  | BottomEdge => canScrollDown m
  | LeftEdge => canScrollLeft m
  | RightEdge => canScrollRight m
  end.

(** The guard of an edge block. *)
Definition edgeTriggers (cfg : AutoScrollConfig) (dom : Dom)
    (m : ScrollMetrics) (p : Position) (e : Edge) : bool :=
  Qltb (edgeDistance dom m p e) (threshold cfg) && edgeCanScroll m e.

(** The component of the returned speed that an edge block assigns. *)
Definition axisSpeed (e : Edge) (speed : Position) : Q :=
  match e with
  | TopEdge | BottomEdge => pos_y speed
  | LeftEdge | RightEdge => pos_x speed
  end.

(** The speed magnitude on the axis of edge [e]. *)
Definition speedMagnitude (dom : Dom) (se : Element) (p : Position)
    (e : Edge) : Q :=
  Qabs (axisSpeed e (calculateScrollSpeed DEFAULT_AUTOSCROLL dom (Some se) p)).

(** What one edge block alone yields at distance [d] under the default
    configuration, when the container can scroll toward that edge. *)
Definition edgeMagnitude (d : Q) : Q :=
  if Qltb d 80 then edgeSpeed DEFAULT_AUTOSCROLL d else 0%Q.

(** ** A sample list: five rows, 50px high, 10px apart *)

Definition rowRect (el : Element) : DOMRect :=
  {| rect_left := 0;
     rect_top := inject_Z (60 * Z.of_nat el);
     rect_right := 100;
     rect_bottom := inject_Z (60 * Z.of_nat el + 50) |}.

(** A scroll container whose visible part is 100px high and 100px wide and
    which can scroll up and down. *)
Definition sampleScrollMetrics : ScrollMetrics :=
  {| sm_rect := Some {| rect_left := 0; rect_top := 0;
                        rect_right := 100; rect_bottom := 100 |};
     scrollTop := 50; scrollLeft := 0;
     scrollHeight := 1000; clientHeight := 100;
     scrollWidth := 100; clientWidth := 100 |}.

Definition sampleDom : Dom :=
  {| getBoundingClientRect := rowRect;
     offsetHeight := fun _ => 50;
     scrollMetrics := fun _ => sampleScrollMetrics;
     resolveScrollElement := fun _ => Some 100%nat;
     innerWidth := 400; innerHeight := 800 |}.

(** The same document with a scroll container 600px high. *)
Definition tallScrollMetrics : ScrollMetrics :=
  {| sm_rect := Some {| rect_left := 0; rect_top := 0;
                        rect_right := 100; rect_bottom := 600 |};
     scrollTop := 50; scrollLeft := 0;
     scrollHeight := 2000; clientHeight := 600;
     scrollWidth := 100; clientWidth := 100 |}.

Definition tallDom : Dom :=
  {| getBoundingClientRect := rowRect;
     offsetHeight := fun _ => 50;
     scrollMetrics := fun _ => tallScrollMetrics;
     resolveScrollElement := fun _ => Some 100%nat;
     innerWidth := 400; innerHeight := 800 |}.

Definition sampleItems : Registry :=
  [("a", mkItem 0 0%nat); ("b", mkItem 1 1%nat); ("c", mkItem 2 2%nat);
   ("d", mkItem 3 3%nat); ("e", mkItem 4 4%nat)].

Definition sampleProvider : Provider := set_itemsRef initialProvider sampleItems.

Definition at_ (px py : Z) : Position :=
  {| pos_x := inject_Z px; pos_y := inject_Z py |}.

(** Item "a" is picked up at (10,10) and carried over item "b". *)
Definition draggingA : Provider :=
  (step DEFAULT_CONFIG sampleDom sampleProvider
        (IStartDrag "a" 0 (at_ 10 10) 0%nat)).1.

Definition draggingAOverB : Provider :=
  (step DEFAULT_CONFIG sampleDom draggingA (IUpdateDrag (at_ 10 70))).1.

Definition lockX : Config :=
  {| autoScroll := DEFAULT_AUTOSCROLL;
     activationDelay := 150;
     activationDistance := 5;
     hapticFeedback := true;
     lockAxis := Some AxisX |}.

Definition lockY : Config :=
  {| autoScroll := DEFAULT_AUTOSCROLL;
     activationDelay := 150;
     activationDistance := 5;
     hapticFeedback := true;
     lockAxis := Some AxisY |}.

(** The hook of item "b", mounted and at rest. *)
Definition hookB : Sortable :=
  {| s_id := "b"; s_index := 1; s_disabled := false;
     elementRef := Some 1%nat;
     activationTimeoutRef := false;
     startPositionRef := None;
     isActivatedRef := false;
     localTransform := None |}.

(** The hook of the row with the given id, index and element, at rest. *)
Definition sampleHook (id : string) (idx : Z) (el : Element) : Sortable :=
  {| s_id := id; s_index := idx; s_disabled := false;
     elementRef := Some el;
     activationTimeoutRef := false;
     startPositionRef := None;
     isActivatedRef := false;
     localTransform := None |}.

(** Item "b" (index 1) is picked up and carried over item "d" (index 3). *)
Definition draggingBOverD : Provider :=
  (run DEFAULT_CONFIG sampleProvider
     [(sampleDom, IStartDrag "b" 1 (at_ 10 70) 1%nat);
      (sampleDom, IUpdateDrag (at_ 10 190))]).1.

(** Item "d" (index 3) is picked up and carried over item "b" (index 1). *)
Definition draggingDOverB : Provider :=
  (run DEFAULT_CONFIG sampleProvider
     [(sampleDom, IStartDrag "d" 3 (at_ 10 190) 3%nat);
      (sampleDom, IUpdateDrag (at_ 10 70))]).1.

Definition touchDownOnB : PointerEvent :=
  {| pointerType := "touch"; button := 0; clientX := 10; clientY := 70 |}.

(** * Further parts of the library *)

(** ** The animation-frame loop of [useAutoScroll] *)

(** What one call of [performScroll] meets in the document: whether the
    scroll element has [scrollBy], and its scroll position read before and
    after the [scrollBy] call. *)
Record ScrollOutcome : Type := mkScrollOutcome {
  hasScrollBy : bool;
  scrollBefore : Position;
  scrollAfter : Position }.

(** [htmlElement.scrollLeft - beforeScrollX] and the same for y. *)
Definition actualDelta (o : ScrollOutcome) : Position :=
  {| pos_x := pos_x (scrollAfter o) - pos_x (scrollBefore o);
     pos_y := pos_y (scrollAfter o) - pos_y (scrollBefore o) |}.

(** [performScroll]: the refs after the frame and the delta handed to
    [onScrollDelta], if any. *)
Definition performScroll (refs : AutoScrollRefs) (o : ScrollOutcome)
    : AutoScrollRefs * option Position :=
  match scrollElementRef refs with
  | None => (refs, None)
  | Some _ =>
      if negb (isScrollingRef refs) then (refs, None)
      else if speed_nonzero (scrollSpeedRef refs) then
        if hasScrollBy o then
          ({| scrollElementRef := scrollElementRef refs;
              animationFrameRef := true;
              isScrollingRef := isScrollingRef refs;
              scrollSpeedRef := scrollSpeedRef refs;
              lastScrollPositionRef := scrollAfter o |},
           if speed_nonzero (actualDelta o) then Some (actualDelta o) else None)
        else
          ({| scrollElementRef := scrollElementRef refs;
              animationFrameRef := true;
              isScrollingRef := isScrollingRef refs;
              scrollSpeedRef := scrollSpeedRef refs;
              lastScrollPositionRef := lastScrollPositionRef refs |},
           None)
      else
        ({| scrollElementRef := scrollElementRef refs;
            animationFrameRef := false;
            isScrollingRef := isScrollingRef refs;
            scrollSpeedRef := scrollSpeedRef refs;
            lastScrollPositionRef := lastScrollPositionRef refs |},
         None)
  end.

(** What happens to the auto-scroller between [initScrollContainer] and
    [stopScroll]: pointer updates and animation frames. *)
Inductive ScrollEvent : Type :=
| SUpdate (dom : Dom) (position : Position)
| SFrame (o : ScrollOutcome).

Definition scrollStep (cfg : AutoScrollConfig) (refs : AutoScrollRefs)
    (e : ScrollEvent) : AutoScrollRefs * option Position :=
  match e with
  | SUpdate dom position => (updateScroll cfg dom refs position, None)
  | SFrame o => performScroll refs o
  end.

(** The refs after a sequence of events and the deltas notified, in order. *)
Fixpoint scrollRun (cfg : AutoScrollConfig) (refs : AutoScrollRefs)
    (events : list ScrollEvent) : AutoScrollRefs * list Position :=
  match events with
  | [] => (refs, [])
  | e :: rest =>
      let '(refs1, d) := scrollStep cfg refs e in
      let '(refs2, ds) := scrollRun cfg refs1 rest in
      (refs2, match d with Some delta => delta :: ds | None => ds end)
  end.

(** [handleScrollDelta] of the provider: [setScrollOffset(prev => ...)]. *)
Definition handleScrollDelta (p : Provider) (delta : Position) : Provider :=
  {| state := state p;
     scrollOffset := {| pos_x := pos_x (scrollOffset p) + pos_x delta;
                        pos_y := pos_y (scrollOffset p) + pos_y delta |};
     itemsRef := itemsRef p;
     draggedElementRef := draggedElementRef p;
     initialIndexRef := initialIndexRef p;
     autoScrollRefs := autoScrollRefs p |}.

Definition set_autoScrollRefs (p : Provider) (refs : AutoScrollRefs) : Provider :=
  {| state := state p;
     scrollOffset := scrollOffset p;
     itemsRef := itemsRef p;
     draggedElementRef := draggedElementRef p;
     initialIndexRef := initialIndexRef p;
     autoScrollRefs := refs |}.

(** One animation frame seen from the provider: [performScroll] with
    [handleScrollDelta] as its [onScrollDelta]. *)
Definition animationFrame (p : Provider) (o : ScrollOutcome) : Provider :=
  let '(refs, d) := performScroll (autoScrollRefs p) o in
  match d with
  | Some delta => handleScrollDelta (set_autoScrollRefs p refs) delta
  | None => set_autoScrollRefs p refs
  end.

Definition animationFrames (p : Provider) (frames : list ScrollOutcome)
    : Provider :=
  fold_left animationFrame frames p.

(** Consecutive frames see the scroll position the previous one left. *)
Fixpoint framesChained (start : Position) (frames : list ScrollOutcome) : Prop :=
  match frames with
  | [] => True
  | o :: rest => scrollBefore o = start /\ framesChained (scrollAfter o) rest
  end.

(** The scroll position after the last frame. *)
Definition lastScrollAfter (start : Position) (frames : list ScrollOutcome)
    : Position :=
  fold_left (fun _ o => scrollAfter o) frames start.

(** Equality of positions as numbers. *)
Definition Peq (a b : Position) : Prop :=
  (pos_x a == pos_x b)%Q /\ (pos_y a == pos_y b)%Q.

(** ** [findScrollableElement] *)

(** The three [querySelector] results on a shadow root. *)
Record ShadowRoot : Type := mkShadowRoot {
  q_innerScroll : option Element;
  q_partScroll : option Element;
  q_main : option Element }.

(** What the ancestor walk reads from one element. *)
Record Ancestor : Type := mkAncestor {
  an_element : Element;
  tagName : string;
  hasGetScrollElement : bool;
  shadowRoot : option ShadowRoot;
  overflowY : string;
  overflowX : string;
  an_metrics : ScrollMetrics }.

(** [ScrollableElement]. *)
Record ScrollableElement : Type := mkScrollableElement {
  sc_element : option Element;
  sc_scrollElement : option Element }.

(** [a || b || c] on query results. *)
Definition firstQuery (s : ShadowRoot) : option Element :=
  match q_innerScroll s with
  | Some e => Some e
  | None =>
      match q_partScroll s with
      | Some e => Some e
      | None => q_main s
      end
  end.

Definition isIonContent (a : Ancestor) : bool :=
  String.eqb (tagName a) "ION-CONTENT".

(** The return value of the [ION-CONTENT] branch. *)
Definition ionContentResult (a : Ancestor) : ScrollableElement :=
  if hasGetScrollElement a then
    {| sc_element := Some (an_element a); sc_scrollElement := None |}
  else
    match shadowRoot a with
    | Some s =>
        match firstQuery s with
        | Some c =>
            {| sc_element := Some (an_element a); sc_scrollElement := Some c |}
        | None =>
            {| sc_element := Some (an_element a);
               sc_scrollElement := Some (an_element a) |}
        end
    | None =>
        {| sc_element := Some (an_element a);
           sc_scrollElement := Some (an_element a) |}
    end.

Definition isAutoOrScroll (v : string) : bool :=
  String.eqb v "auto" || String.eqb v "scroll".

(** The test for a regular scrollable element. *)
Definition isScrollable (a : Ancestor) : bool :=
  (isAutoOrScroll (overflowY a) || isAutoOrScroll (overflowX a))
  && (Qltb (clientHeight (an_metrics a)) (scrollHeight (an_metrics a))
      || Qltb (clientWidth (an_metrics a)) (scrollWidth (an_metrics a))).

(** The [while (current)] loop; the list is the element followed by its
    [parentElement] chain. *)
Fixpoint walkAncestors (documentElement : Element) (chain : list Ancestor)
    : ScrollableElement :=
  match chain with
  | [] => {| sc_element := Some documentElement;
             sc_scrollElement := Some documentElement |}
  | a :: parents =>
      if isIonContent a then ionContentResult a
      else if isScrollable a then
        {| sc_element := Some (an_element a);
           sc_scrollElement := Some (an_element a) |}
      else walkAncestors documentElement parents
  end.

(** [findScrollableElement]; [None] is a [null] element. *)
Definition findScrollableElement (documentElement : Element)
    (start : option (list Ancestor)) : ScrollableElement :=
  match start with
  | None => {| sc_element := None; sc_scrollElement := None |}
  | Some chain => walkAncestors documentElement chain
  end.

(** ** Further parts of [useSortable] *)

(** [handlePointerUp] (also bound to [onPointerCancel]). *)
Definition handlePointerUp (h : Sortable) : Sortable :=
  {| s_id := s_id h; s_index := s_index h; s_disabled := s_disabled h;
     elementRef := elementRef h;
     activationTimeoutRef := false;
     startPositionRef := None;
     isActivatedRef := false;
     localTransform := localTransform h |}.

(** The fields of a [React.TouchEvent] that [handleTouchStart] reads: the
    client position of every touch. *)
Record TouchEvent : Type := mkTouchEvent { touches : list Position }.

(** [handleTouchStart]. *)
Definition handleTouchStart (h : Sortable) (e : TouchEvent) : Sortable :=
  if s_disabled h || negb (Nat.eqb (length (touches e)) 1) then h
  else
    match touches e with
    | touch :: _ =>
        {| s_id := s_id h; s_index := s_index h; s_disabled := s_disabled h;
           elementRef := elementRef h;
           activationTimeoutRef := true;
           startPositionRef := Some touch;
           isActivatedRef := false;
           localTransform := localTransform h |}
    | [] => h
    end.

(** The events a hook's element listeners receive before activation. *)
Inductive HookEvent : Type :=
| HPointerDown (e : PointerEvent)
| HTouchStart (e : TouchEvent)
| HPointerUp.

Definition hookStep (h : Sortable) (e : HookEvent) : Sortable :=
  match e with
  | HPointerDown pe => handlePointerDown h pe
  | HTouchStart te => handleTouchStart h te
  | HPointerUp => handlePointerUp h
  end.

Definition hookRun (h : Sortable) (events : list HookEvent) : Sortable :=
  fold_left hookStep events h.

(** The [ref] callback: stores the node and registers it when present. *)
Definition refCallback (h : Sortable) (items : Registry)
    (node : option Element) : Sortable * Registry :=
  ({| s_id := s_id h; s_index := s_index h; s_disabled := s_disabled h;
      elementRef := node;
      activationTimeoutRef := activationTimeoutRef h;
      startPositionRef := startPositionRef h;
      isActivatedRef := isActivatedRef h;
      localTransform := localTransform h |},
   match node with
   | Some el => registerItem items (s_id h) (s_index h) el
   | None => items
   end).

(** [state.draggedId === id]. *)
Definition hookIsDragging (st : DragState) (h : Sortable) : bool :=
  is_dragged (s_id h) (draggedId st).

(** [state.overIndex === index && state.draggedId !== id]. *)
Definition hookIsOver (st : DragState) (h : Sortable) : bool :=
  match overIndex st with
  | Some o => (o =? s_index h) && negb (is_dragged (s_id h) (draggedId st))
  | None => false
  end.

(** [dragTransform]. *)
Definition dragTransform (st : DragState) (scroll : Position) (h : Sortable)
    : option Position :=
  if negb (hookIsDragging st h) then None
  else
    match currentPosition st, initialPosition st with
    | Some cur, Some ini =>
        Some {| pos_x := pos_x cur - pos_x ini + pos_x scroll;
                pos_y := pos_y cur - pos_y ini + pos_y scroll |}
    | _, _ => None
    end.

(** [isDragging ? dragTransform : localTransform]. *)
Definition hookTransform (st : DragState) (scroll : Position) (h : Sortable)
    : option Position :=
  if hookIsDragging st h then dragTransform st scroll h else localTransform h.

(** ** [DragOverlay] *)

(** [v || 0] on a number. *)
Definition orZero (v : Q) : Q := if Qeq_bool v 0 then 0 else v.

(** The translation in [overlayStyle]; [None] when the style is
    [display: none]. *)
Definition overlayTranslate (st : DragState) : option Position :=
  if negb (isDragging st) then None
  else
    match currentPosition st with
    | None => None
    | Some cur =>
        Some {| pos_x := pos_x cur
                         - match offset st with
                           | Some off => orZero (pos_x off)
                           | None => 0
                           end;
                pos_y := pos_y cur
                         - match offset st with
                           | Some off => orZero (pos_y off)
                           | None => 0
                           end |}
    end.

(** ** [arrayInsert], [arrayRemove] ([SortableContainer]) *)

Section ArrayUtilities.
Context {T : Type}.

Definition arrayInsert (array : list T) (idx : Z) (item : T) : list T :=
  (splice array idx 0 [item]).1.

Definition arrayRemove (array : list T) (idx : Z) : list T :=
  (splice array idx 1 []).1.
End ArrayUtilities.

(** ** The drag-end handlers of the example pages *)

(** The event object as a handler sees it.  [DragEndEvent] declares the
    aliases [activeIndex] and [overIndex]; a field the object does not
    carry reads as [undefined], here [None]. *)
Record DragEndEvent : Type := mkDragEndEvent {
  ev_fromIndex : Z;
  ev_toIndex : Z;
  ev_cancelled : bool;
  ev_activeIndex : option Z;
  ev_overIndex : option Z }.

(** The object literal [endDrag] passes to [onDragEnd]:
    [{ item, fromIndex, toIndex, cancelled }]. *)
Definition dragEndEvent (fromIndex toIndex : Z) (cancelled : bool)
    : DragEndEvent :=
  {| ev_fromIndex := fromIndex;
     ev_toIndex := toIndex;
     ev_cancelled := cancelled;
     ev_activeIndex := None;
     ev_overIndex := None |}.

(** The [onDragEnd] calls among the notifications. *)
Fixpoint dragEndEvents (out : list Notification) : list DragEndEvent :=
  match out with
  | [] => []
  | NDragEnd _ fromIndex toIndex cancelled :: rest =>
      dragEndEvent fromIndex toIndex cancelled :: dragEndEvents rest
  | _ :: rest => dragEndEvents rest
  end.

Definition isDragStart (n : Notification) : bool :=
  match n with NDragStart _ _ => true | _ => false end.

Section ExampleHandlers.
Context {T : Type}.
Variable undefined : T.

(** [handleDragEnd] of SimpleList, MediaGrid and HandleExample.  An
    [undefined] index handed to [splice] counts as 0. *)
Definition listHandleDragEnd (prev : list T) (event : DragEndEvent) : list T :=
  if optZ_neb (ev_activeIndex event) (ev_overIndex event)
     && match ev_overIndex event with Some _ => true | None => false end
  then arrayMove undefined prev (default 0 (ev_activeIndex event))
                 (default 0 (ev_overIndex event))
  else prev.

(** [{ ...item, media_index: idx }]. *)
Variable withMediaIndex : T -> Z -> T.

(** [.map((item, idx) => ({ ...item, media_index: idx }))]. *)
Definition reindex (items : list T) : list T :=
  imap (fun idx item => withMediaIndex item (Z.of_nat idx)) items.

(** [handleDragEnd] of EditMyProfileGrid: the new items and the argument of
    [onItemsReorder], if it is called. *)
Definition gridHandleDragEnd (prevItems : list T) (event : DragEndEvent)
    : list T * option (list T) :=
  if ev_cancelled event || (ev_fromIndex event =? ev_toIndex event)
  then (prevItems, None)
  else
    let newItems :=
      reindex (arrayMove undefined prevItems (ev_fromIndex event)
                         (ev_toIndex event)) in
    (newItems, Some newItems).
End ExampleHandlers.

(** ** Vocabulary of the further statements *)

(** The keys of the registry, in iteration order. *)
Definition registryKeys (items : Registry) : list string := items.*1.

(** Everything a finished or not yet started gesture leaves behind. *)
Definition atRest (p : Provider) : Prop :=
  state p = idleState
  /\ draggedElementRef p = None
  /\ initialIndexRef p = None
  /\ isScrollingRef (autoScrollRefs p) = false
  /\ animationFrameRef (autoScrollRefs p) = false
  /\ scrollSpeedRef (autoScrollRefs p) = zeroPosition.

(** Everything an active gesture has set. *)
Definition fullyActive (p : Provider) : Prop :=
  exists id idx over ini cur off el,
    state p = {| isDragging := true;
                 draggedId := Some id;
                 draggedIndex := Some idx;
                 overIndex := Some over;
                 initialPosition := Some ini;
                 currentPosition := Some cur;
                 offset := Some off |}
    /\ initialIndexRef p = Some idx
    /\ draggedElementRef p = Some el.

(** The auto-scroller holds a frame handle but is switched off. *)
Definition stalled (refs : AutoScrollRefs) : Prop :=
  animationFrameRef refs = true /\ isScrollingRef refs = false.

(** The creep speed: the least speed of a triggering edge. *)
Definition creepSpeed (cfg : AutoScrollConfig) : Q :=
  Qmin (maxSpeed cfg) (0.1 * maxSpeed cfg * acceleration cfg).

(** How many notifications of a kind a run emitted. *)
Definition countOf (f : Notification -> bool) (out : list Notification) : nat :=
  length (List.filter f out).

(** The auto-scroller of the provider is running. *)
Definition scrollerActive (p : Provider) : Prop :=
  is_Some (scrollElementRef (autoScrollRefs p))
  /\ isScrollingRef (autoScrollRefs p) = true
  /\ speed_nonzero (scrollSpeedRef (autoScrollRefs p)) = true.

(** An ancestor the walk passes over. *)
Definition passedOver (a : Ancestor) : Prop :=
  isIonContent a = false /\ isScrollable a = false.

(** ** Handlers between two renders *)

(** [endDrag] as the callback one render created: [closure] is the [state]
    that render captured, from which the guard, the dragged id and the
    index fallbacks are read; the refs are read and written as they are at
    the call, and [setState] replaces the state of the provider.  [endDrag]
    above is the call whose closure is the state of the provider. *)
Definition endDragFrom (cfg : Config) (closure : DragState) (p : Provider)
    (cancelled : bool) : Provider * list Notification :=
  if negb (isDragging closure) then (p, [])
  else
    let fromIndex := match initialIndexRef p with
                     | Some i => i
                     | None => default 0 (draggedIndex closure)
                     end in
    let toIndex := if cancelled then fromIndex
                   else default fromIndex (overIndex closure) in
    ({| state := idleState;
        scrollOffset := scrollOffset p;
        itemsRef := itemsRef p;
        draggedElementRef := None;
        initialIndexRef := None;
        autoScrollRefs := stopScroll (autoScrollRefs p) |},
     haptic cfg Medium
     ++ [NDragEnd (draggedId closure) fromIndex toIndex cancelled]).

(** [startDrag] up to the point where [await initScrollContainer(element)]
    suspends it: the two refs are written and the scroll offset is reset,
    [setState] has not run.  [inGetScrollElement] tells whether
    [initScrollContainer] is itself suspended, in [getScrollElement()]
    with its refs not yet written, or has run to its end. *)
Definition startDragSuspended (dom : Dom) (p : Provider) (idx : Z)
    (el : Element) (inGetScrollElement : bool) : Provider :=
  {| state := state p;
     scrollOffset := zeroPosition;
     itemsRef := itemsRef p;
     draggedElementRef := Some el;
     initialIndexRef := Some idx;
     autoScrollRefs :=
       if inGetScrollElement then autoScrollRefs p
       else initScrollContainer dom (autoScrollRefs p) el |}.

(** The rest of [startDrag], on the provider as it is when the awaited
    promise settles: the rest of [initScrollContainer] when that was
    suspended, the haptic, [setState] and [onDragStart]. *)
Definition startDragResumed (cfg : Config) (dom : Dom) (p : Provider)
    (id : string) (idx : Z) (position : Position) (el : Element)
    (inGetScrollElement : bool) : Provider * list Notification :=
  let rect := getBoundingClientRect dom el in
  let off := {| pos_x := pos_x position - rect_left rect;
                pos_y := pos_y position - rect_top rect |} in
  ({| state :=
        {| isDragging := true;
           draggedId := Some id;
           draggedIndex := Some idx;
           overIndex := Some idx;
           initialPosition := Some position;
           currentPosition := Some position;
           offset := Some off |};
      scrollOffset := scrollOffset p;
      itemsRef := itemsRef p;
      draggedElementRef := draggedElementRef p;
      initialIndexRef := initialIndexRef p;
      autoScrollRefs :=
        if inGetScrollElement
        then initScrollContainer dom (autoScrollRefs p) el
        else autoScrollRefs p |},
   haptic cfg Medium ++ [NDragStart id idx]).

(** * Properties *)

(** ** Comparisons *)

Lemma Qleb_le (a b : Q) : Qleb a b = true <-> (a <= b)%Q.
Proof. apply Qle_bool_iff. Qed.

Lemma Qltb_lt (a b : Q) : Qltb a b = true <-> (a < b)%Q.
Proof.
  unfold Qltb. rewrite negb_true_iff. split.
  - intros H. apply Qnot_le_lt. intros Hle.
    apply Qle_bool_iff in Hle. congruence.
  - intros H. destruct (Qle_bool b a) eqn:E; [|reflexivity].
    apply Qle_bool_iff in E. exfalso. exact (Qlt_not_le _ _ H E).
Qed.

Lemma Qltb_ge (a b : Q) : Qltb a b = false <-> (b <= a)%Q.
Proof.
  unfold Qltb. rewrite negb_false_iff. apply Qle_bool_iff.
Qed.

(** ** What a pointer move leaves alone *)

Lemma updateDrag_identity cfg dom p position :
  isDragging (state (updateDrag cfg dom p position).1) = isDragging (state p)
  /\ draggedId (state (updateDrag cfg dom p position).1) = draggedId (state p)
  /\ draggedIndex (state (updateDrag cfg dom p position).1) = draggedIndex (state p)
  /\ initialPosition (state (updateDrag cfg dom p position).1) = initialPosition (state p)
  /\ initialIndexRef (updateDrag cfg dom p position).1 = initialIndexRef p
  /\ itemsRef (updateDrag cfg dom p position).1 = itemsRef p.
Proof.
  unfold updateDrag. destruct (isDragging (state p)) eqn:E; simpl; auto 10.
Qed.

Lemma pointerMoves_identity cfg moves : forall p,
  isDragging (state (run cfg p (pointerMoves moves)).1) = isDragging (state p)
  /\ draggedId (state (run cfg p (pointerMoves moves)).1) = draggedId (state p)
  /\ draggedIndex (state (run cfg p (pointerMoves moves)).1) = draggedIndex (state p)
  /\ initialPosition (state (run cfg p (pointerMoves moves)).1) = initialPosition (state p)
  /\ initialIndexRef (run cfg p (pointerMoves moves)).1 = initialIndexRef p
  /\ itemsRef (run cfg p (pointerMoves moves)).1 = itemsRef p.
Proof.
  induction moves as [|[dom pos] moves IH]; intros p; simpl; [auto 10|].
  destruct (updateDrag cfg dom p pos) as [p1 out1] eqn:E1.
  specialize (IH p1).
  destruct (run cfg p1 (pointerMoves moves)) as [p2 out2] eqn:E2. simpl in *.
  pose proof (updateDrag_identity cfg dom p pos) as H. rewrite E1 in H. simpl in H.
  destruct IH as (-> & -> & -> & -> & -> & ->). exact H.
Qed.

Lemma endFromIndex_pointerMoves cfg moves p :
  endFromIndex (run cfg p (pointerMoves moves)).1 = endFromIndex p.
Proof.
  destruct (pointerMoves_identity cfg moves p) as (_ & _ & Hi & _ & Hr & _).
  unfold endFromIndex. now rewrite Hr, Hi.
Qed.

(** ** Drag-end notifications *)

Lemma filter_isDragEnd_haptic cfg kind rest :
  List.filter isDragEnd (haptic cfg kind ++ rest) = List.filter isDragEnd rest.
Proof. unfold haptic. destruct (hapticFeedback cfg); reflexivity. Qed.

Lemma endDrag_active cfg p cancelled :
  isDragging (state p) = true ->
  List.filter isDragEnd (endDrag cfg p cancelled).2
    = [NDragEnd (draggedId (state p)) (endFromIndex p)
                (endToIndex p cancelled) cancelled]
  /\ state (endDrag cfg p cancelled).1 = idleState.
Proof.
  intros H. unfold endDrag. rewrite H. simpl.
  now rewrite filter_isDragEnd_haptic.
Qed.

Lemma not_dragEnd_in_haptic cfg kind id from to c :
  NDragEnd id from to c ∉ haptic cfg kind.
Proof.
  unfold haptic. destruct (hapticFeedback cfg); intros H.
  - apply list_elem_of_singleton in H. discriminate.
  - inversion H.
Qed.

Lemma endDrag_flag cfg p cancelled id from to c :
  NDragEnd id from to c ∈ (endDrag cfg p cancelled).2 -> c = cancelled.
Proof.
  unfold endDrag. destruct (isDragging (state p)); simpl; intros H.
  - apply elem_of_app in H as [H|H].
    + now apply not_dragEnd_in_haptic in H.
    + apply list_elem_of_singleton in H. congruence.
  - inversion H.
Qed.

Lemma cancel_input_ends_cancelled cfg dom p i :
  isDragging (state p) = true -> isCancelInput i = true ->
  step cfg dom p i = endDrag cfg p true.
Proof.
  intros Hd Hc. destruct i as [| | | |e| |]; simpl in Hc; try discriminate.
  - simpl. unfold windowListener. rewrite Hd. simpl.
    destruct e; try discriminate; try reflexivity.
    now rewrite Hc.
  - reflexivity.
Qed.

Lemma step_dragEnd_flag cfg dom p i id from to :
  NDragEnd id from to true ∈ (step cfg dom p i).2 -> isCancelInput i = true.
Proof.
  destruct i as [rid ridx rel|uid|sid sidx spos sel|pos|e| |]; simpl.
  - intros H. inversion H.
  - intros H. inversion H.
  - unfold startDrag. simpl. intros H.
    apply elem_of_app in H as [H|H].
    + now apply not_dragEnd_in_haptic in H.
    + apply list_elem_of_singleton in H. discriminate.
  - unfold updateDrag. destruct (isDragging (state p)); simpl; intros H.
    + apply elem_of_app in H as [H|H].
      { destruct (optZ_neb _ _).
        - now apply not_dragEnd_in_haptic in H.
        - inversion H. }
      apply elem_of_cons in H as [H|H]; [discriminate|].
      destruct (findItemAtPosition _ _ _ _) as [[oid oi]|].
      * apply list_elem_of_singleton in H. discriminate.
      * inversion H.
    + inversion H.
  - unfold windowListener. destruct (isDragging (state p)); simpl.
    + destruct e as [| | | |key]; intros H;
        try reflexivity; try (apply endDrag_flag in H; discriminate).
      destruct (String.eqb key "Escape"); [reflexivity|inversion H].
    + intros H. inversion H.
  - reflexivity.
  - unfold controlsComplete. intros H. apply endDrag_flag in H. discriminate.
Qed.

(** C1 (cancellation invariant).  From any active session and after any
    sequence of pointer moves, an input on a cancel path (pointer-cancel,
    touch-cancel, Escape, programmatic cancel) emits exactly one drag-end,
    with [toIndex = fromIndex] and [cancelled = true], whatever [overIndex]
    the moves left behind, and resets the session; a drag-end with
    [cancelled = true] is emitted by cancel inputs only, and a plain
    pointer-up emits one drag-end with [cancelled = false], also when its
    [toIndex] equals [fromIndex]. *)
Theorem cancel_emits_one_cancelled_drag_end
    (cfg : Config) (p : Provider) (moves : list (Dom * Position))
    (dom : Dom) (i : Input) :
  isDragging (state p) = true ->
  isCancelInput i = true ->
  let active := (run cfg p (pointerMoves moves)).1 in
  List.filter isDragEnd (step cfg dom active i).2
    = [NDragEnd (draggedId (state p)) (endFromIndex p) (endFromIndex p) true]
  /\ state (step cfg dom active i).1 = idleState
  /\ (forall dom' j id from to,
        NDragEnd id from to true ∈ (step cfg dom' active j).2 ->
        isCancelInput j = true)
  /\ List.filter isDragEnd (step cfg dom active (IWindow WPointerUp)).2
       = [NDragEnd (draggedId (state p)) (endFromIndex p)
                   (default (endFromIndex p) (overIndex (state active)))
                   false].
Proof.
  intros Hd Hc active.
  destruct (pointerMoves_identity cfg moves p) as (Ha & Hid & _).
  fold active in Ha, Hid. rewrite Hd in Ha.
  pose proof (endFromIndex_pointerMoves cfg moves p) as Hfrom.
  fold active in Hfrom.
  repeat split.
  - rewrite (cancel_input_ends_cancelled cfg dom active i Ha Hc).
    destruct (endDrag_active cfg active true Ha) as [-> _].
    unfold endToIndex. now rewrite Hfrom, Hid.
  - rewrite (cancel_input_ends_cancelled cfg dom active i Ha Hc).
    now destruct (endDrag_active cfg active true Ha) as [_ ->].
  - intros dom' j id from to. apply step_dragEnd_flag.
  - simpl. unfold windowListener. rewrite Ha. simpl.
    destruct (endDrag_active cfg active false Ha) as [-> _].
    unfold endToIndex. now rewrite Hfrom, Hid.
Qed.

Lemma cancel_emits_one_cancelled_drag_end_witness :
  isDragging (state draggingA) = true
  /\ isCancelInput (IWindow WPointerCancel) = true
  /\ List.filter isDragEnd
       (step DEFAULT_CONFIG sampleDom
          (run DEFAULT_CONFIG draggingA
             (pointerMoves [(sampleDom, at_ 10 70); (sampleDom, at_ 10 190)])).1
          (IWindow WPointerCancel)).2
     = [NDragEnd (Some "a") 0 0 true].
Proof.
  split; [reflexivity|]. split; [reflexivity|].
  exact (proj1 (cancel_emits_one_cancelled_drag_end DEFAULT_CONFIG draggingA
                  [(sampleDom, at_ 10 70); (sampleDom, at_ 10 190)]
                  sampleDom (IWindow WPointerCancel) eq_refl eq_refl)).
Defined.

(** ** The session invariant *)

Lemma sessionConsistent_idle : sessionConsistent idleState.
Proof.
  unfold sessionConsistent, idleState; simpl.
  repeat split; try discriminate; intros [? ?]; discriminate.
Qed.

Lemma sessionConsistent_endDrag cfg p cancelled :
  sessionConsistent (state p) ->
  sessionConsistent (state (endDrag cfg p cancelled).1).
Proof.
  intros H. unfold endDrag. destruct (isDragging (state p)); simpl;
    [apply sessionConsistent_idle|exact H].
Qed.

Lemma sessionConsistent_step cfg dom p i :
  sessionConsistent (state p) ->
  sessionConsistent (state (step cfg dom p i).1).
Proof.
  intros H. destruct i as [rid ridx rel|uid|sid sidx spos sel|pos|e| |]; simpl.
  - exact H.
  - exact H.
  - unfold sessionConsistent; simpl. repeat split; eauto.
  - destruct (updateDrag_identity cfg dom p pos) as (E1 & E2 & E3 & E4 & _).
    unfold sessionConsistent. rewrite E1, E2, E3, E4. exact H.
  - unfold windowListener. destruct (isDragging (state p)) eqn:E; simpl;
      [|exact H].
    destruct e as [| | | |key]; try (now apply sessionConsistent_endDrag).
    destruct (String.eqb key "Escape");
      [now apply sessionConsistent_endDrag|exact H].
  - now apply sessionConsistent_endDrag.
  - now apply sessionConsistent_endDrag.
Qed.

Lemma reachable_sessionConsistent cfg p :
  reachable cfg p -> sessionConsistent (state p).
Proof.
  induction 1 as [|p dom i _ IH].
  - apply sessionConsistent_idle.
  - now apply sessionConsistent_step.
Qed.

(** C9 (atomic identity).  In every reachable [DragState], [isDragging] is
    true exactly when [draggedId] is set and exactly when [draggedIndex] is
    set: each transition writes the three fields in one state update. *)
Theorem dragging_iff_dragged_identity (cfg : Config) (p : Provider) :
  reachable cfg p ->
  (isDragging (state p) = true <-> is_Some (draggedId (state p)))
  /\ (isDragging (state p) = true <-> is_Some (draggedIndex (state p))).
Proof.
  intros H. apply reachable_sessionConsistent in H.
  destruct H as (H1 & H2 & _). now split.
Qed.

Lemma reachable_run cfg inputs : forall p,
  reachable cfg p -> reachable cfg (run cfg p inputs).1.
Proof.
  induction inputs as [|[dom i] inputs IH]; intros p H; simpl; [exact H|].
  pose proof (reachable_step cfg p dom i H) as H1.
  destruct (step cfg dom p i) as [p1 out1]. simpl in H1.
  specialize (IH p1 H1).
  now destruct (run cfg p1 inputs) as [p2 out2].
Qed.

Lemma reachable_draggingAOverB : reachable DEFAULT_CONFIG draggingAOverB.
Proof.
  exact (reachable_run DEFAULT_CONFIG
           [(sampleDom, IRegisterItem "a" 0 0%nat);
            (sampleDom, IRegisterItem "b" 1 1%nat);
            (sampleDom, IRegisterItem "c" 2 2%nat);
            (sampleDom, IRegisterItem "d" 3 3%nat);
            (sampleDom, IRegisterItem "e" 4 4%nat);
            (sampleDom, IStartDrag "a" 0 (at_ 10 10) 0%nat);
            (sampleDom, IUpdateDrag (at_ 10 70))]
           initialProvider (reachable_init _)).
Qed.

Lemma dragging_iff_dragged_identity_witness :
  reachable DEFAULT_CONFIG draggingAOverB
  /\ (isDragging (state draggingAOverB) = true
      <-> is_Some (draggedId (state draggingAOverB)))
  /\ (isDragging (state draggingAOverB) = true
      <-> is_Some (draggedIndex (state draggingAOverB))).
Proof.
  split; [exact reachable_draggingAOverB|].
  exact (dragging_iff_dragged_identity DEFAULT_CONFIG draggingAOverB
           reachable_draggingAOverB).
Defined.

(** ** Hit test *)

Lemma rect_contains_spec (r : DOMRect) (q : Position) :
  rect_contains r q = true <->
  (rect_left r <= pos_x q /\ pos_x q <= rect_right r
   /\ rect_top r <= pos_y q /\ pos_y q <= rect_bottom r)%Q.
Proof.
  unfold rect_contains. rewrite !andb_true_iff, !Qleb_le. tauto.
Qed.

Lemma findItemAtPosition_skip dom dragged position entry rest :
  hitCandidate dom dragged position entry = false ->
  findItemAtPosition dom (entry :: rest) dragged position
  = findItemAtPosition dom rest dragged position.
Proof.
  destruct entry as [id it]. unfold hitCandidate. simpl.
  destruct (is_dragged id dragged); simpl; [reflexivity|].
  now intros ->.
Qed.

Lemma findItemAtPosition_hit dom dragged position id it rest :
  hitCandidate dom dragged position (id, it) = true ->
  findItemAtPosition dom ((id, it) :: rest) dragged position
  = Some (id, index it).
Proof.
  unfold hitCandidate. simpl. rewrite andb_true_iff, negb_true_iff.
  now intros [-> ->].
Qed.

Lemma findItemAtPosition_Some dom items dragged position id idx :
  findItemAtPosition dom items dragged position = Some (id, idx) <->
  exists before it after,
    items = before ++ (id, it) :: after
    /\ index it = idx
    /\ hitCandidate dom dragged position (id, it) = true
    /\ Forall (fun e => hitCandidate dom dragged position e = false) before.
Proof.
  split.
  - induction items as [|[k v] rest IH]; [discriminate|].
    destruct (hitCandidate dom dragged position (k, v)) eqn:E.
    + rewrite (findItemAtPosition_hit _ _ _ _ _ _ E). intros [= <- <-].
      exists [], v, rest. auto.
    + rewrite (findItemAtPosition_skip _ _ _ _ _ E). intros H.
      destruct (IH H) as (before & it & after & -> & Hi & Hh & Hb).
      exists ((k, v) :: before), it, after. auto.
  - intros (before & it & after & -> & <- & Hh & Hb).
    induction Hb as [|e before He _ IH]; simpl app.
    + now apply findItemAtPosition_hit.
    + now rewrite (findItemAtPosition_skip _ _ _ _ _ He).
Qed.

Lemma findItemAtPosition_None dom items dragged position :
  findItemAtPosition dom items dragged position = None <->
  Forall (fun e => hitCandidate dom dragged position e = false) items.
Proof.
  induction items as [|[k v] rest IH].
  - split; [constructor|reflexivity].
  - destruct (hitCandidate dom dragged position (k, v)) eqn:E.
    + rewrite (findItemAtPosition_hit _ _ _ _ _ _ E). split; [discriminate|].
      intros H. apply Forall_cons in H as [H _]. congruence.
    + rewrite (findItemAtPosition_skip _ _ _ _ _ E), IH. split.
      * now constructor.
      * intros H. now apply Forall_cons in H as [_ H].
Qed.

Lemma updateDrag_overIndex cfg dom p position :
  isDragging (state p) = true ->
  overIndex (state (updateDrag cfg dom p position).1)
  = match findItemAtPosition dom (itemsRef p) (draggedId (state p))
            (applyLockAxis cfg (state p) position) with
    | Some (_, i) => Some i
    | None => overIndex (state p)
    end.
Proof. intros H. unfold updateDrag. now rewrite H. Qed.

Lemma is_dragged_spec (id : string) (dragged : option string) :
  is_dragged id dragged = true <-> dragged = Some id.
Proof.
  destruct dragged as [d|]; simpl.
  - rewrite String.eqb_eq. split; congruence.
  - split; discriminate.
Qed.

Lemma hitCandidate_true dom dragged position (e : string * Item) :
  hitCandidate dom dragged position e = true <->
  dragged <> Some e.1
  /\ rect_contains (getBoundingClientRect dom (element e.2)) position = true.
Proof.
  unfold hitCandidate. rewrite andb_true_iff, negb_true_iff.
  rewrite <- is_dragged_spec. destruct (is_dragged e.1 dragged);
    split; intros [H1 H2]; split; congruence.
Qed.

Lemma hitCandidate_false dom dragged position (e : string * Item) :
  hitCandidate dom dragged position e = false <->
  dragged = Some e.1
  \/ rect_contains (getBoundingClientRect dom (element e.2)) position = false.
Proof.
  unfold hitCandidate. rewrite andb_false_iff, negb_false_iff.
  now rewrite is_dragged_spec.
Qed.

(** C4 (hit test).  The bounds test is closed on all four edges, so that
    (100,50) lies in {left 0, top 0, right 100, bottom 50} and (101,50)
    does not.  An entry is skipped as the dragged one exactly when its id
    is the dragged id.  The hit test returns the first registered entry,
    in registration order, whose id is not the dragged id and whose
    rectangle contains the position (every entry before it is the dragged
    one or does not contain the position); so its result is never the
    dragged id, also when the position lies inside the dragged item's own
    rectangle; and it is absent exactly when every entry is the dragged
    one or does not contain the position.  A pointer move whose hit test
    is absent leaves [overIndex] at its previous value. *)
Theorem hit_test_closed_first_match_and_retention
    (cfg : Config) (dom : Dom) (p : Provider) (position : Position)
    (r : DOMRect) (q : Position)
    (items : Registry) (dragged : option string) :
  (rect_contains r q = true <->
     (rect_left r <= pos_x q /\ pos_x q <= rect_right r
      /\ rect_top r <= pos_y q /\ pos_y q <= rect_bottom r)%Q)
  /\ rect_contains (mkRect 0 0 100 50) (mkPosition 100 50) = true
  /\ rect_contains (mkRect 0 0 100 50) (mkPosition 101 50) = false
  /\ (forall id, is_dragged id dragged = true <-> dragged = Some id)
  /\ (forall id idx,
        findItemAtPosition dom items dragged q = Some (id, idx) <->
        exists before it after,
          items = before ++ (id, it) :: after
          /\ index it = idx
          /\ dragged <> Some id
          /\ rect_contains (getBoundingClientRect dom (element it)) q = true
          /\ Forall (fun e : string * Item =>
                       dragged = Some e.1
                       \/ rect_contains
                            (getBoundingClientRect dom (element e.2)) q
                          = false) before)
  /\ (forall id idx,
        findItemAtPosition dom items dragged q = Some (id, idx) ->
        dragged <> Some id)
  /\ (forall it after,
        findItemAtPosition dom ((default "" dragged, it) :: after) dragged q
        = match dragged with
          | Some _ => findItemAtPosition dom after dragged q
          | None =>
              findItemAtPosition dom (("", it) :: after) None q
          end)
  /\ (findItemAtPosition dom items dragged q = None <->
        Forall (fun e : string * Item =>
                  dragged = Some e.1
                  \/ rect_contains
                       (getBoundingClientRect dom (element e.2)) q
                     = false) items)
  /\ (isDragging (state p) = true ->
      findItemAtPosition dom (itemsRef p) (draggedId (state p))
        (applyLockAxis cfg (state p) position) = None ->
      overIndex (state (updateDrag cfg dom p position).1)
      = overIndex (state p)).
Proof.
  assert (Hforall : forall l : Registry,
    Forall (fun e => hitCandidate dom dragged q e = false) l
    <-> Forall (fun e : string * Item =>
                  dragged = Some e.1
                  \/ rect_contains
                       (getBoundingClientRect dom (element e.2)) q
                     = false) l).
  { intros l. split; intros H; (eapply Forall_impl; [exact H|]);
      intros e; apply hitCandidate_false. }
  assert (Hsome : forall id idx,
    findItemAtPosition dom items dragged q = Some (id, idx) <->
    exists before it after,
      items = before ++ (id, it) :: after
      /\ index it = idx
      /\ dragged <> Some id
      /\ rect_contains (getBoundingClientRect dom (element it)) q = true
      /\ Forall (fun e : string * Item =>
                   dragged = Some e.1
                   \/ rect_contains
                        (getBoundingClientRect dom (element e.2)) q
                      = false) before).
  { intros id idx. rewrite findItemAtPosition_Some. split.
    - intros (before & it & after & Hi & Hx & Hh & Hb).
      apply hitCandidate_true in Hh as [Hd Hc]. apply Hforall in Hb.
      exists before, it, after. auto.
    - intros (before & it & after & Hi & Hx & Hd & Hc & Hb).
      exists before, it, after. split; [exact Hi|]. split; [exact Hx|].
      split; [now apply hitCandidate_true|now apply Hforall]. }
  split; [apply rect_contains_spec|].
  split; [reflexivity|]. split; [reflexivity|].
  split; [intros id; apply is_dragged_spec|].
  split; [exact Hsome|].
  split.
  { intros id idx H. apply Hsome in H as (_ & _ & _ & _ & _ & Hd & _).
    exact Hd. }
  split.
  { intros it after. destruct dragged as [d|]; [|reflexivity].
    simpl. now rewrite String.eqb_refl. }
  split; [rewrite findItemAtPosition_None; apply Hforall|].
  intros Hd Hnone. rewrite (updateDrag_overIndex _ _ _ _ Hd). now rewrite Hnone.
Qed.

(** Between rows "b" and "c" of the sample list nothing is hit, and the
    session keeps pointing at "b"; inside the rectangle of the dragged row
    "a" itself nothing is hit either. *)
Lemma hit_test_closed_first_match_and_retention_witness :
  isDragging (state draggingAOverB) = true
  /\ findItemAtPosition sampleDom (itemsRef draggingAOverB)
       (draggedId (state draggingAOverB))
       (applyLockAxis DEFAULT_CONFIG (state draggingAOverB) (at_ 10 115)) = None
  /\ overIndex (state (updateDrag DEFAULT_CONFIG sampleDom draggingAOverB
                         (at_ 10 115)).1) = Some 1
  /\ rect_contains (getBoundingClientRect sampleDom 0%nat) (at_ 10 10) = true
  /\ findItemAtPosition sampleDom sampleItems (Some "a") (at_ 10 10) = None.
Proof.
  split; [reflexivity|]. split; [reflexivity|].
  split.
  - exact (proj2 (proj2 (proj2 (proj2 (proj2 (proj2 (proj2 (proj2
      (hit_test_closed_first_match_and_retention DEFAULT_CONFIG sampleDom
         draggingAOverB (at_ 10 115) (mkRect 0 0 100 50) (mkPosition 100 50)
         sampleItems (Some "a"))))))))) eq_refl eq_refl).
  - split; reflexivity.
Defined.

(** ** Drag-over notifications *)

Lemma filter_isDragOver_haptic cfg kind rest :
  List.filter isDragOver (haptic cfg kind ++ rest) = List.filter isDragOver rest.
Proof. unfold haptic. destruct (hapticFeedback cfg); reflexivity. Qed.

Lemma updateDrag_dragOver cfg dom p position :
  isDragging (state p) = true ->
  List.filter isDragOver (updateDrag cfg dom p position).2
  = match findItemAtPosition dom (itemsRef p) (draggedId (state p))
            (applyLockAxis cfg (state p) position) with
    | Some (oid, i) =>
        [NDragOver (draggedId (state p)) (draggedIndex (state p)) i oid i]
    | None => []
    end.
Proof.
  intros H. unfold updateDrag. rewrite H. simpl.
  assert (Hh : forall rest,
    List.filter isDragOver
      ((if optZ_neb
             match findItemAtPosition dom (itemsRef p) (draggedId (state p))
                     (applyLockAxis cfg (state p) position) with
             | Some (_, i) => Some i
             | None => overIndex (state p)
             end (overIndex (state p))
        then haptic cfg Light else []) ++ rest)
    = List.filter isDragOver rest).
  { intros rest. destruct (optZ_neb _ _); [apply filter_isDragOver_haptic|reflexivity]. }
  rewrite Hh. simpl.
  now destruct (findItemAtPosition _ _ _ _) as [[oid i]|].
Qed.

(** C5, as stated, fails: with "a" carried over row "b", a further move
    inside row "b" leaves [overIndex] at 1 and still emits a drag-over. *)
Lemma drag_over_emitted_without_index_change :
  isDragging (state draggingAOverB) = true
  /\ overIndex (state (updateDrag DEFAULT_CONFIG sampleDom draggingAOverB
                         (at_ 11 71)).1)
     = overIndex (state draggingAOverB)
  /\ List.filter isDragOver
       (updateDrag DEFAULT_CONFIG sampleDom draggingAOverB (at_ 11 71)).2
     = [NDragOver (Some "a") (Some 0) 1 "b" 1].
Proof. repeat split. Qed.

(** C5 (amended).  During an active drag, a pointer move emits a drag-over
    exactly when its hit test finds an item under the pointer, whether or
    not [overIndex] changed: every move that changes [overIndex] emits one,
    and a move whose hit test is absent emits none and keeps [overIndex]. *)
Theorem drag_over_emitted_on_every_hit
    (cfg : Config) (dom : Dom) (p : Provider) (position : Position) :
  isDragging (state p) = true ->
  let hit := findItemAtPosition dom (itemsRef p) (draggedId (state p))
               (applyLockAxis cfg (state p) position) in
  let moved := updateDrag cfg dom p position in
  List.filter isDragOver moved.2
    = match hit with
      | Some (oid, i) =>
          [NDragOver (draggedId (state p)) (draggedIndex (state p)) i oid i]
      | None => []
      end
  /\ (overIndex (state moved.1) <> overIndex (state p) ->
      List.filter isDragOver moved.2 <> [])
  /\ (hit = None ->
      List.filter isDragOver moved.2 = []
      /\ overIndex (state moved.1) = overIndex (state p)).
Proof.
  intros Hd hit moved. subst moved.
  rewrite (updateDrag_dragOver _ _ _ _ Hd), (updateDrag_overIndex _ _ _ _ Hd).
  fold hit. destruct hit as [[oid i]|].
  - split; [reflexivity|]. split; [discriminate|]. discriminate.
  - split; [reflexivity|]. split; [congruence|]. auto.
Qed.

Lemma drag_over_emitted_on_every_hit_witness :
  isDragging (state draggingAOverB) = true
  /\ List.filter isDragOver
       (updateDrag DEFAULT_CONFIG sampleDom draggingAOverB (at_ 11 71)).2
     = [NDragOver (Some "a") (Some 0) 1 "b" 1].
Proof.
  split; [reflexivity|].
  exact (proj1 (drag_over_emitted_on_every_hit DEFAULT_CONFIG sampleDom
                  draggingAOverB (at_ 11 71) eq_refl)).
Defined.

(** ** Axis lock *)

(** C6, as stated, fails: with [lockAxis = "x"] the x coordinate follows
    the pointer (30, not the initial 10) and y is held at its initial
    value; with [lockAxis = "y"] it is x that is held. *)
Lemma lock_axis_x_lets_x_follow_pointer :
  lockAxis lockX = Some AxisX
  /\ initialPosition
       (state (run lockX sampleProvider
                 [(sampleDom, IStartDrag "a" 0 (at_ 10 10) 0%nat)]).1)
     = Some (at_ 10 10)
  /\ currentPosition
       (state (run lockX sampleProvider
                 [(sampleDom, IStartDrag "a" 0 (at_ 10 10) 0%nat);
                  (sampleDom, IUpdateDrag (at_ 30 70))]).1)
     = Some (at_ 30 10)
  /\ currentPosition
       (state (run lockY sampleProvider
                 [(sampleDom, IStartDrag "a" 0 (at_ 10 10) 0%nat);
                  (sampleDom, IUpdateDrag (at_ 30 70))]).1)
     = Some (at_ 10 70).
Proof. repeat split. Qed.

(** C6 (amended).  In an active session the initial position is set and a
    pointer move never changes it; with [lockAxis = "x"] the move pins the
    y coordinate of [currentPosition] to its initial value while x follows
    the pointer, with [lockAxis = "y"] it pins x while y follows the
    pointer, and without a lock the position is the pointer's. *)
Theorem lock_axis_pins_other_coordinate
    (cfg : Config) (dom : Dom) (p : Provider) (position : Position) :
  reachable cfg p ->
  isDragging (state p) = true ->
  exists ip,
    initialPosition (state p) = Some ip
    /\ initialPosition (state (updateDrag cfg dom p position).1) = Some ip
    /\ (lockAxis cfg = Some AxisX ->
        currentPosition (state (updateDrag cfg dom p position).1)
        = Some {| pos_x := pos_x position; pos_y := pos_y ip |})
    /\ (lockAxis cfg = Some AxisY ->
        currentPosition (state (updateDrag cfg dom p position).1)
        = Some {| pos_x := pos_x ip; pos_y := pos_y position |})
    /\ (lockAxis cfg = None ->
        currentPosition (state (updateDrag cfg dom p position).1)
        = Some position).
Proof.
  intros Hr Hd.
  destruct (reachable_sessionConsistent _ _ Hr) as (_ & _ & Hip).
  destruct (Hip Hd) as [ip Eip]. exists ip.
  split; [exact Eip|].
  split.
  { destruct (updateDrag_identity cfg dom p position) as (_ & _ & _ & -> & _).
    exact Eip. }
  unfold updateDrag, applyLockAxis. rewrite Hd, Eip. simpl.
  repeat split; intros ->; reflexivity.
Qed.

Lemma reachable_lockX_draggingA :
  reachable lockX
    (run lockX sampleProvider
       [(sampleDom, IStartDrag "a" 0 (at_ 10 10) 0%nat)]).1.
Proof.
  exact (reachable_run lockX
           [(sampleDom, IRegisterItem "a" 0 0%nat);
            (sampleDom, IRegisterItem "b" 1 1%nat);
            (sampleDom, IRegisterItem "c" 2 2%nat);
            (sampleDom, IRegisterItem "d" 3 3%nat);
            (sampleDom, IRegisterItem "e" 4 4%nat);
            (sampleDom, IStartDrag "a" 0 (at_ 10 10) 0%nat)]
           initialProvider (reachable_init _)).
Qed.

Lemma lock_axis_pins_other_coordinate_witness :
  exists ip,
    initialPosition
      (state (run lockX sampleProvider
                [(sampleDom, IStartDrag "a" 0 (at_ 10 10) 0%nat)]).1) = Some ip
    /\ currentPosition
         (state (updateDrag lockX sampleDom
                   (run lockX sampleProvider
                      [(sampleDom, IStartDrag "a" 0 (at_ 10 10) 0%nat)]).1
                   (at_ 30 70)).1)
       = Some {| pos_x := 30; pos_y := pos_y ip |}.
Proof.
  destruct (lock_axis_pins_other_coordinate lockX sampleDom
              (run lockX sampleProvider
                 [(sampleDom, IStartDrag "a" 0 (at_ 10 10) 0%nat)]).1
              (at_ 30 70) reachable_lockX_draggingA eq_refl)
    as (ip & Hip & _ & Hx & _).
  exists ip. split; [exact Hip|]. exact (Hx eq_refl).
Defined.

(** ** Removal of the dragged item during a gesture *)

(** C7, as stated, fails: unregistering "a" while it is dragged over "b"
    removes its record, emits nothing and leaves the session active; the
    pointer-up that follows commits the move 0 -> 1 with [cancelled] false. *)
Lemma unregistering_dragged_item_does_not_cancel :
  map_get (itemsRef (step DEFAULT_CONFIG sampleDom draggingAOverB
                       (IUnregisterItem "a")).1) "a" = None
  /\ (step DEFAULT_CONFIG sampleDom draggingAOverB (IUnregisterItem "a")).2 = []
  /\ isDragging (state (step DEFAULT_CONFIG sampleDom draggingAOverB
                          (IUnregisterItem "a")).1) = true
  /\ draggedId (state (step DEFAULT_CONFIG sampleDom draggingAOverB
                         (IUnregisterItem "a")).1) = Some "a"
  /\ (step DEFAULT_CONFIG sampleDom
        (step DEFAULT_CONFIG sampleDom draggingAOverB (IUnregisterItem "a")).1
        (IWindow WPointerUp)).2
     = [NHaptic Medium; NDragEnd (Some "a") 0 1 false].
Proof. repeat split. Qed.

(** C7 (amended).  Removing the dragged item's record during an active
    gesture does not touch the session: the removal emits nothing, the
    session state and the recorded origin index stay as they were, and the
    gesture ends only on a later terminal input; a later pointer-up emits
    one drag-end with [cancelled = false] and the last [overIndex] as
    [toIndex], a later cancel input one with [cancelled = true] and
    [toIndex = fromIndex]. *)
Theorem unregistering_dragged_item_keeps_session
    (cfg : Config) (dom : Dom) (p : Provider) (id : string) :
  isDragging (state p) = true ->
  draggedId (state p) = Some id ->
  let gone := step cfg dom p (IUnregisterItem id) in
  gone.2 = []
  /\ state gone.1 = state p
  /\ initialIndexRef gone.1 = initialIndexRef p
  /\ itemsRef gone.1 = unregisterItem (itemsRef p) id
  /\ (forall dom',
        List.filter isDragEnd (step cfg dom' gone.1 (IWindow WPointerUp)).2
        = [NDragEnd (Some id) (endFromIndex p)
                    (default (endFromIndex p) (overIndex (state p))) false])
  /\ (forall dom' i, isCancelInput i = true ->
        List.filter isDragEnd (step cfg dom' gone.1 i).2
        = [NDragEnd (Some id) (endFromIndex p) (endFromIndex p) true]).
Proof.
  intros Hd Hid gone. subst gone. simpl.
  split; [reflexivity|]. split; [reflexivity|]. split; [reflexivity|].
  split; [reflexivity|].
  set (q := set_itemsRef p (unregisterItem (itemsRef p) id)).
  assert (Hq : isDragging (state q) = true) by exact Hd.
  split.
  - intros dom'. unfold windowListener. rewrite Hq. simpl.
    destruct (endDrag_active cfg q false Hq) as [-> _].
    unfold endToIndex, endFromIndex. simpl. now rewrite Hid.
  - intros dom' i Hc.
    rewrite (cancel_input_ends_cancelled cfg dom' q i Hq Hc).
    destruct (endDrag_active cfg q true Hq) as [-> _].
    unfold endToIndex, endFromIndex. simpl. now rewrite Hid.
Qed.

Lemma unregistering_dragged_item_keeps_session_witness :
  isDragging (state draggingAOverB) = true
  /\ draggedId (state draggingAOverB) = Some "a"
  /\ (step DEFAULT_CONFIG sampleDom draggingAOverB (IUnregisterItem "a")).2 = []
  /\ state (step DEFAULT_CONFIG sampleDom draggingAOverB
              (IUnregisterItem "a")).1 = state draggingAOverB.
Proof.
  split; [reflexivity|]. split; [reflexivity|].
  pose proof (unregistering_dragged_item_keeps_session DEFAULT_CONFIG sampleDom
                draggingAOverB "a" eq_refl eq_refl) as H.
  exact (conj (proj1 H) (proj1 (proj2 H))).
Defined.

(** ** Pointer-down during an active gesture *)

(** C8, as stated, fails: while "a" is being dragged, a touch on "b" arms
    the activation timer of "b", and when the timer fires the session is
    overwritten: "b" is now the dragged item, and no drag-end was emitted
    for "a". *)
Lemma pointer_down_during_drag_starts_second_drag :
  draggedId (state draggingAOverB) = Some "a"
  /\ activationTimeoutRef (handlePointerDown hookB touchDownOnB) = true
  /\ draggedId (state (activationTimeout DEFAULT_CONFIG sampleDom draggingAOverB
                         (handlePointerDown hookB touchDownOnB)).2.1)
     = Some "b"
  /\ (activationTimeout DEFAULT_CONFIG sampleDom draggingAOverB
        (handlePointerDown hookB touchDownOnB)).2.2
     = [NHaptic Medium; NDragStart "b" 1].
Proof. repeat split. Qed.

(** C8 (amended).  A pointer-down on a mounted, enabled item (primary
    button or touch) is handled the same whether or not a gesture is
    active: it records the start position and arms the item's activation
    timer, and when the timer fires [startDrag] overwrites the session with
    the new item and its index, emitting a drag-start and no drag-end.  The
    session state has one [draggedId], so at most one item is recorded as
    dragged at any time. *)
Theorem pointer_down_always_arms_and_overwrites
    (cfg : Config) (dom : Dom) (p : Provider) (h : Sortable)
    (e : PointerEvent) (el : Element) :
  s_disabled h = false ->
  (String.eqb (pointerType e) "mouse" && negb (button e =? 0)) = false ->
  elementRef h = Some el ->
  let armed := handlePointerDown h e in
  let fired := activationTimeout cfg dom p armed in
  activationTimeoutRef armed = true
  /\ startPositionRef armed = Some {| pos_x := clientX e; pos_y := clientY e |}
  /\ isActivatedRef fired.1 = true
  /\ isDragging (state fired.2.1) = true
  /\ draggedId (state fired.2.1) = Some (s_id h)
  /\ draggedIndex (state fired.2.1) = Some (s_index h)
  /\ overIndex (state fired.2.1) = Some (s_index h)
  /\ initialIndexRef fired.2.1 = Some (s_index h)
  /\ List.filter isDragEnd fired.2.2 = []
  /\ NDragStart (s_id h) (s_index h) ∈ fired.2.2.
Proof.
  intros Hdis Hbtn Hel armed fired. subst fired armed.
  unfold handlePointerDown. rewrite Hdis, Hbtn.
  unfold activationTimeout. simpl. rewrite Hel. simpl.
  repeat split.
  - apply filter_isDragEnd_haptic.
  - apply elem_of_app. right. apply list_elem_of_singleton. reflexivity.
Qed.

Lemma pointer_down_always_arms_and_overwrites_witness :
  s_disabled hookB = false
  /\ (String.eqb (pointerType touchDownOnB) "mouse"
      && negb (button touchDownOnB =? 0)) = false
  /\ elementRef hookB = Some 1%nat
  /\ draggedId (state (activationTimeout DEFAULT_CONFIG sampleDom draggingAOverB
                         (handlePointerDown hookB touchDownOnB)).2.1)
     = Some "b".
Proof.
  split; [reflexivity|]. split; [reflexivity|]. split; [reflexivity|].
  exact (proj1 (proj2 (proj2 (proj2 (proj2
    (pointer_down_always_arms_and_overwrites DEFAULT_CONFIG sampleDom
       draggingAOverB hookB touchDownOnB 1%nat eq_refl eq_refl eq_refl)))))).
Defined.

(** ** Displacement of the other items *)

Lemma shift_inj (a b : Z) : shift a = shift b -> a = b.
Proof. unfold shift, inject_Z. now intros [= ->]. Qed.

Lemma is_dragged_other (id d : string) :
  d <> id -> is_dragged id (Some d) = false.
Proof.
  intros Hne. simpl. apply String.eqb_neq. congruence.
Qed.

Ltac z_cases :=
  repeat match goal with
  | |- context [Z.ltb ?a ?b] => destruct (Z.ltb_spec a b)
  | |- context [Z.leb ?a ?b] => destruct (Z.leb_spec a b)
  end; simpl.

Lemma displacementEffect_spec dom st items h el de d origin over :
  isDragging st = true ->
  draggedId st = Some d ->
  d <> s_id h ->
  elementRef h = Some el ->
  draggedIndex st = Some origin ->
  overIndex st = Some over ->
  getItemElement items d = Some de ->
  displacementEffect dom st items h
  = spec_displacement origin over (s_index h) (offsetHeight dom de + 16).
Proof.
  intros Hd Hid Hne Hel Ho Hv Hde.
  unfold displacementEffect, isAnotherDragging, isMounted, draggedElement.
  rewrite Hd, Hid, Hel, Ho, Hv, Hde, (is_dragged_other _ _ Hne). simpl.
  unfold spec_displacement.
  z_cases; try lia; try reflexivity.
  - unfold shift. do 3 f_equal. lia.
  - unfold shift. do 3 f_equal. lia.
Qed.

Lemma spec_displacement_backward origin over idx extent :
  0 < extent ->
  spec_displacement origin over idx extent = Some (shift (- extent))
  <-> origin < over /\ origin < idx /\ idx <= over.
Proof.
  intros He. unfold spec_displacement.
  z_cases; split; intros Heq; try lia; try discriminate; try reflexivity.
  all: try (assert (Heq' := f_equal (default (shift 0)) Heq); simpl in Heq';
            apply shift_inj in Heq'; lia).
Qed.

Lemma spec_displacement_forward origin over idx extent :
  0 < extent ->
  spec_displacement origin over idx extent = Some (shift extent)
  <-> over < origin /\ over <= idx /\ idx < origin.
Proof.
  intros He. unfold spec_displacement.
  z_cases; split; intros Heq; try lia; try discriminate; try reflexivity.
  all: try (assert (Heq' := f_equal (default (shift 0)) Heq); simpl in Heq';
            apply shift_inj in Heq'; lia).
Qed.

Lemma spec_displacement_none origin over idx extent :
  spec_displacement origin over idx extent = None
  <-> ~ (origin < over /\ origin < idx /\ idx <= over)
      /\ ~ (over < origin /\ over <= idx /\ idx < origin).
Proof.
  unfold spec_displacement.
  z_cases; split; intros Heq; try lia; try discriminate; try reflexivity.
Qed.

(** C2 (displacement).  For an item other than the dragged one, with the
    dragged element registered, the transform set by the displacement
    effect is the function of (originIndex, overIndex, index, extent) the
    specification describes, where the extent is the dragged element's
    height plus the 16px gap: one extent backward iff
    origin < over and origin < index <= over, one extent forward iff
    origin > over and over <= index < origin, none otherwise.  Dragging
    index 1 to over-index 3 shifts exactly the indices 2 and 3 backward,
    dragging index 3 to over-index 1 shifts exactly the indices 1 and 2
    forward. *)
Theorem displacement_rule
    (dom : Dom) (st : DragState) (items : Registry) (h : Sortable)
    (el de : Element) (d : string) (origin over : Z) :
  isDragging st = true ->
  draggedId st = Some d ->
  d <> s_id h ->
  elementRef h = Some el ->
  draggedIndex st = Some origin ->
  overIndex st = Some over ->
  getItemElement items d = Some de ->
  0 <= offsetHeight dom de ->
  let extent := offsetHeight dom de + 16 in
  let idx := s_index h in
  let t := displacementEffect dom st items h in
  t = spec_displacement origin over idx extent
  /\ (t = Some (shift (- extent)) <-> origin < over /\ origin < idx /\ idx <= over)
  /\ (t = Some (shift extent) <-> over < origin /\ over <= idx /\ idx < origin)
  /\ (t = None <->
        ~ (origin < over /\ origin < idx /\ idx <= over)
        /\ ~ (over < origin /\ over <= idx /\ idx < origin))
  /\ (origin = 1 -> over = 3 ->
        (t = Some (shift (- extent)) <-> idx = 2 \/ idx = 3)
        /\ (t = None <-> idx <> 2 /\ idx <> 3))
  /\ (origin = 3 -> over = 1 ->
        (t = Some (shift extent) <-> idx = 1 \/ idx = 2)
        /\ (t = None <-> idx <> 1 /\ idx <> 2)).
Proof.
  intros Hd Hid Hne Hel Ho Hv Hde Hh extent idx t.
  assert (Ht : t = spec_displacement origin over idx extent)
    by (apply (displacementEffect_spec dom st items h el de d); assumption).
  assert (He : 0 < extent) by (unfold extent; lia).
  pose proof (spec_displacement_backward origin over idx extent He) as Hb.
  pose proof (spec_displacement_forward origin over idx extent He) as Hf.
  pose proof (spec_displacement_none origin over idx extent) as Hn.
  rewrite <- Ht in Hb, Hf, Hn.
  split; [exact Ht|]. split; [exact Hb|]. split; [exact Hf|].
  split; [exact Hn|]. split.
  - intros -> ->. rewrite Hb, Hn. lia.
  - intros -> ->. rewrite Hf, Hn. lia.
Qed.

(** In the sample list with "b" carried from index 1 to over-index 3, row
    "c" (index 2) moves up by 50 + 16 pixels. *)
Lemma displacement_rule_witness :
  isDragging (state draggingBOverD) = true
  /\ draggedId (state draggingBOverD) = Some "b"
  /\ draggedIndex (state draggingBOverD) = Some 1
  /\ overIndex (state draggingBOverD) = Some 3
  /\ getItemElement sampleItems "b" = Some 1%nat
  /\ displacementEffect sampleDom (state draggingBOverD) sampleItems
       (sampleHook "c" 2 2%nat) = Some (shift (-66)).
Proof.
  repeat (split; [reflexivity|]).
  assert (Hne : "b" <> s_id (sampleHook "c" 2 2%nat)) by discriminate.
  assert (Hh : 0 <= offsetHeight sampleDom 1%nat) by discriminate.
  apply (proj2 (proj1 (proj2 (displacement_rule sampleDom (state draggingBOverD)
           sampleItems (sampleHook "c" 2 2%nat) 2%nat 1%nat "b" 1 3
           eq_refl eq_refl Hne eq_refl eq_refl eq_refl eq_refl Hh)))).
  simpl. lia.
Defined.

(** ** Auto-scroll speed *)

Lemma intensity_default_antitone (d1 d2 : Q) :
  (d1 <= d2)%Q ->
  (intensity DEFAULT_AUTOSCROLL d2 <= intensity DEFAULT_AUTOSCROLL d1)%Q.
Proof.
  intros H. unfold intensity. simpl threshold. unfold Qdiv.
  change (/ 80)%Q with (1 # 80)%Q.
  destruct (Qleb d1 0) eqn:E1, (Qleb d2 0) eqn:E2.
  - lra.
  - apply Qltb_ge in E2 || idtac.
    assert (0 < d2)%Q. { apply Qnot_le_lt. intros C. apply Qleb_le in C. congruence. }
    lra.
  - apply Qleb_le in E2.
    assert (0 < d1)%Q. { apply Qnot_le_lt. intros C. apply Qleb_le in C. congruence. }
    lra.
  - lra.
Qed.

Lemma edgeSpeed_default_nonneg (d : Q) : (0 <= edgeSpeed DEFAULT_AUTOSCROLL d)%Q.
Proof.
  unfold edgeSpeed. simpl maxSpeed. simpl acceleration.
  apply Q.min_glb; [lra|].
  pose proof (Q.le_max_l 0.1 (intensity DEFAULT_AUTOSCROLL d)).
  nra.
Qed.

Lemma edgeSpeed_default_antitone (d1 d2 : Q) :
  (d1 <= d2)%Q ->
  (edgeSpeed DEFAULT_AUTOSCROLL d2 <= edgeSpeed DEFAULT_AUTOSCROLL d1)%Q.
Proof.
  intros H. unfold edgeSpeed. simpl maxSpeed. simpl acceleration.
  apply Q.min_le_compat_l.
  pose proof (Q.max_le_compat_l _ _ 0.1 (intensity_default_antitone d1 d2 H)).
  nra.
Qed.

Lemma calculateScrollSpeed_y cfg dom se p :
  enabled cfg = true ->
  pos_y (calculateScrollSpeed cfg dom (Some se) p)
  = if edgeTriggers cfg dom (scrollMetrics dom se) p BottomEdge
    then edgeSpeed cfg (distanceFromBottom dom (scrollMetrics dom se) p)
    else if edgeTriggers cfg dom (scrollMetrics dom se) p TopEdge
    then (- edgeSpeed cfg (distanceFromTop dom (scrollMetrics dom se) p))%Q
    else 0%Q.
Proof. intros H. unfold calculateScrollSpeed. rewrite H. reflexivity. Qed.

Lemma calculateScrollSpeed_x cfg dom se p :
  enabled cfg = true ->
  pos_x (calculateScrollSpeed cfg dom (Some se) p)
  = if edgeTriggers cfg dom (scrollMetrics dom se) p RightEdge
    then edgeSpeed cfg (distanceFromRight dom (scrollMetrics dom se) p)
    else if edgeTriggers cfg dom (scrollMetrics dom se) p LeftEdge
    then (- edgeSpeed cfg (distanceFromLeft dom (scrollMetrics dom se) p))%Q
    else 0%Q.
Proof. intros H. unfold calculateScrollSpeed. rewrite H. reflexivity. Qed.

Lemma speedMagnitude_single_edge dom se p e :
  edgeCanScroll (scrollMetrics dom se) e = true ->
  edgeTriggers DEFAULT_AUTOSCROLL dom (scrollMetrics dom se) p (opposite e) = false ->
  (speedMagnitude dom se p e
   == edgeMagnitude (edgeDistance dom (scrollMetrics dom se) p e))%Q.
Proof.
  intros Hc Ho. unfold speedMagnitude, edgeMagnitude.
  destruct e; cbn [axisSpeed opposite edgeDistance edgeCanScroll] in *.
  all: rewrite ?calculateScrollSpeed_y, ?calculateScrollSpeed_x by reflexivity.
  all: rewrite ?Ho.
  all: unfold edgeTriggers; cbn [edgeDistance edgeCanScroll].
  all: rewrite Hc, andb_true_r.
  all: change (threshold DEFAULT_AUTOSCROLL) with 80%Q.
  all: match goal with
       | |- context [Qltb ?d 80] => destruct (Qltb d 80)
       end; try reflexivity.
  all: rewrite ?Qabs_opp; apply Qabs_pos, edgeSpeed_default_nonneg.
Qed.

Lemma axisSpeed_no_trigger dom se p e :
  edgeTriggers DEFAULT_AUTOSCROLL dom (scrollMetrics dom se) p e = false ->
  edgeTriggers DEFAULT_AUTOSCROLL dom (scrollMetrics dom se) p (opposite e) = false ->
  axisSpeed e (calculateScrollSpeed DEFAULT_AUTOSCROLL dom (Some se) p) = 0%Q.
Proof.
  intros He Ho.
  destruct e; cbn [axisSpeed opposite] in *.
  all: rewrite ?calculateScrollSpeed_y, ?calculateScrollSpeed_x by reflexivity.
  all: now rewrite He, Ho.
Qed.

Lemma edgeMagnitude_antitone (d1 d2 : Q) :
  (d1 <= d2)%Q -> (edgeMagnitude d2 <= edgeMagnitude d1)%Q.
Proof.
  intros H. unfold edgeMagnitude.
  destruct (Qltb d2 80) eqn:E2, (Qltb d1 80) eqn:E1.
  - now apply edgeSpeed_default_antitone.
  - apply Qltb_lt in E2. apply Qltb_ge in E1. lra.
  - apply edgeSpeed_default_nonneg.
  - lra.
Qed.

(** C3, as stated, fails when both edges of an axis are within the
    threshold: in a container whose visible part is 100px high and which
    can scroll both ways, the pointer 90px below the top edge gets the
    vertical speed 15 (from the bottom block), not 0; likewise 90px above
    the bottom edge (from the top block); and the magnitude at distance 70
    from the top exceeds the one at distance 30. *)
Lemma autoscroll_opposite_edge_overrides :
  edgeCanScroll sampleScrollMetrics TopEdge = true
  /\ (edgeDistance sampleDom sampleScrollMetrics (at_ 10 90) TopEdge == 90)%Q
  /\ (speedMagnitude sampleDom 100%nat (at_ 10 90) TopEdge == 15)%Q
  /\ edgeCanScroll sampleScrollMetrics BottomEdge = true
  /\ (edgeDistance sampleDom sampleScrollMetrics (at_ 10 10) BottomEdge == 90)%Q
  /\ (speedMagnitude sampleDom 100%nat (at_ 10 10) BottomEdge == 15)%Q
  /\ (edgeDistance sampleDom sampleScrollMetrics (at_ 10 30) TopEdge == 30)%Q
  /\ (edgeDistance sampleDom sampleScrollMetrics (at_ 10 70) TopEdge == 70)%Q
  /\ (speedMagnitude sampleDom 100%nat (at_ 10 30) TopEdge
      < speedMagnitude sampleDom 100%nat (at_ 10 70) TopEdge)%Q.
Proof. repeat split. Qed.

(** C3 (amended).  With threshold 80, maximal speed 15 and acceleration
    1.5, for an edge toward which the container can still scroll and whose
    opposite edge on the same axis does not trigger, the speed magnitude on
    that axis is min(15, max(0.1, intensity) * 15 * 1.5) for a distance
    below 80, with intensity 1 for a distance <= 0 and 1 - distance/80
    otherwise; the speed is exactly 0 for every distance >= 80; and the
    magnitude does not increase when the distance increases. *)
Theorem edge_speed_formula_zero_and_antitone
    (dom : Dom) (se : Element) (p : Position)
    (dom' : Dom) (se' : Element) (p' : Position) (e : Edge) :
  let m := scrollMetrics dom se in
  let m' := scrollMetrics dom' se' in
  let d := edgeDistance dom m p e in
  let d' := edgeDistance dom' m' p' e in
  edgeCanScroll m e = true ->
  edgeTriggers DEFAULT_AUTOSCROLL dom m p (opposite e) = false ->
  edgeCanScroll m' e = true ->
  edgeTriggers DEFAULT_AUTOSCROLL dom' m' p' (opposite e) = false ->
  ((d < 80)%Q ->
     (speedMagnitude dom se p e
      == Qmin 15 (Qmax 0.1 (if Qleb d 0 then 1 else 1 - d / 80) * 15 * 1.5))%Q)
  /\ ((80 <= d)%Q ->
        axisSpeed e (calculateScrollSpeed DEFAULT_AUTOSCROLL dom (Some se) p)
        = 0%Q)
  /\ ((d <= d')%Q ->
        (speedMagnitude dom' se' p' e <= speedMagnitude dom se p e)%Q).
Proof.
  intros m m' d d' Hc Ho Hc' Ho'.
  pose proof (speedMagnitude_single_edge dom se p e Hc Ho) as Hm.
  pose proof (speedMagnitude_single_edge dom' se' p' e Hc' Ho') as Hm'.
  fold m in Hm. fold d in Hm. fold m' in Hm'. fold d' in Hm'.
  repeat split.
  - intros Hlt. rewrite Hm. unfold edgeMagnitude.
    apply Qltb_lt in Hlt. rewrite Hlt. reflexivity.
  - intros Hge. apply axisSpeed_no_trigger; [|exact Ho].
    unfold edgeTriggers. fold m. fold d.
    apply Qltb_ge in Hge. change (threshold DEFAULT_AUTOSCROLL) with 80%Q.
    now rewrite Hge.
  - intros Hle. rewrite Hm, Hm'. now apply edgeMagnitude_antitone.
Qed.

(** In a container 600px high that can scroll up, 60px from the top edge
    the speed is no larger than 30px from it. *)
Lemma edge_speed_formula_zero_and_antitone_witness :
  edgeCanScroll tallScrollMetrics TopEdge = true
  /\ edgeTriggers DEFAULT_AUTOSCROLL tallDom tallScrollMetrics (at_ 10 30)
       BottomEdge = false
  /\ edgeTriggers DEFAULT_AUTOSCROLL tallDom tallScrollMetrics (at_ 10 60)
       BottomEdge = false
  /\ (speedMagnitude tallDom 100%nat (at_ 10 60) TopEdge
      <= speedMagnitude tallDom 100%nat (at_ 10 30) TopEdge)%Q.
Proof.
  split; [reflexivity|]. split; [reflexivity|]. split; [reflexivity|].
  apply (proj2 (proj2 (edge_speed_formula_zero_and_antitone
           tallDom 100%nat (at_ 10 30) tallDom 100%nat (at_ 10 60) TopEdge
           eq_refl eq_refl eq_refl eq_refl))).
  discriminate.
Defined.

(** ** [arrayMove] *)

Section ArrayFacts.
Context {T : Type} (undefined : T).
Implicit Types (a : list T) (h : list (list T)).

Lemma spliceStart_in_range (len n : nat) :
  (n <= len)%nat -> spliceStart (Z.of_nat len) (Z.of_nat n) = n.
Proof.
  intros H. unfold spliceStart.
  destruct (Z.ltb_spec (Z.of_nat n) 0); lia.
Qed.

Lemma splice_remove_one a (i : nat) (x : T) :
  a !! i = Some x ->
  splice a (Z.of_nat i) 1 [] = (delete i a, [x]).
Proof.
  intros Hx. pose proof (lookup_lt_Some _ _ _ Hx) as Hlt.
  unfold splice. rewrite spliceStart_in_range by lia.
  assert (Hdc : spliceDeleteCount (Z.of_nat (length a)) i 1 = 1%nat)
    by (unfold spliceDeleteCount; lia).
  rewrite Hdc. simpl app. f_equal.
  - rewrite delete_take_drop. do 2 f_equal. lia.
  - rewrite (drop_S _ _ _ Hx). reflexivity.
Qed.

Lemma splice_insert_one a (j : nat) (x : T) :
  (j <= length a)%nat ->
  (splice a (Z.of_nat j) 0 [x]).1 = take j a ++ x :: drop j a.
Proof.
  intros Hj. unfold splice. rewrite spliceStart_in_range by lia.
  assert (Hdc : spliceDeleteCount (Z.of_nat (length a)) j 0 = 0%nat)
    by (unfold spliceDeleteCount; lia).
  rewrite Hdc. simpl. do 3 f_equal. lia.
Qed.

Lemma arrayMove_in_range a (i j : nat) (x : T) :
  a !! i = Some x -> (j < length a)%nat ->
  arrayMove undefined a (Z.of_nat i) (Z.of_nat j)
  = take j (delete i a) ++ x :: drop j (delete i a).
Proof.
  intros Hx Hj. unfold arrayMove.
  rewrite (splice_remove_one _ _ _ Hx). simpl firstOrUndefined.
  assert (Hlen : (j <= length (delete i a))%nat).
  { rewrite length_delete by eauto. lia. }
  pose proof (splice_insert_one (delete i a) j x Hlen) as H.
  destruct (splice (delete i a) (Z.of_nat j) 0 [x]) as [r rm]. exact H.
Qed.

Lemma arrayMoveAt_arrayMove h (addr : nat) (fromIndex toIndex : Z) :
  arrayMoveAt undefined h addr fromIndex toIndex
  = (h ++ [arrayMove undefined (default [] (h !! addr)) fromIndex toIndex],
     length h).
Proof.
  unfold arrayMoveAt, spread, spliceAt, arrayMove.
  set (a := default [] (h !! addr)).
  assert (Hnew : forall c : list T, (h ++ [c]) !! length h = Some c).
  { intros c. now apply list_lookup_middle. }
  assert (Hins : forall c c' : list T,
             <[length h := c']> (h ++ [c]) = h ++ [c']).
  { intros c c'. rewrite insert_app_r_alt by lia.
    now replace (length h - length h)%nat with 0%nat by lia. }
  rewrite Hnew. simpl default.
  destruct (splice a fromIndex 1 []) as [b removedItems].
  rewrite Hins, Hnew. simpl default.
  destruct (splice b toIndex 0 [firstOrUndefined undefined removedItems])
    as [r rm].
  now rewrite Hins.
Qed.

Lemma delete_at_length (l1 l2 : list T) (x : T) (n : nat) :
  n = length l1 -> delete n (l1 ++ x :: l2) = l1 ++ l2.
Proof. intros ->. apply delete_middle. Qed.

(** C10 ([arrayMove]).  For in-range indices [i] and [j] the result has the
    length of the input and is a permutation of it, holds at [j] the
    element that was at [i], and keeps the other elements in their order;
    moving an element onto its own index gives the input back.  The result
    is a fresh array: the input array, and every other array of the heap,
    is left as it was. *)
Theorem arrayMove_moves_one_element
    (h : list (list T)) (addr : nat) (a : list T) (i j : Z) :
  h !! addr = Some a ->
  0 <= i < Z.of_nat (length a) ->
  0 <= j < Z.of_nat (length a) ->
  let r := arrayMove undefined a i j in
  let after := arrayMoveAt undefined h addr i j in
  length r = length a
  /\ a ≡ₚ r
  /\ r !! Z.to_nat j = a !! Z.to_nat i
  /\ delete (Z.to_nat j) r = delete (Z.to_nat i) a
  /\ arrayMove undefined a i i = a
  /\ after.1 !! after.2 = Some r
  /\ after.2 <> addr
  /\ after.1 !! addr = Some a
  /\ (forall k : nat, (k < length h)%nat -> after.1 !! k = h !! k).
Proof.
  intros Hh Hi Hj r after.
  set (i' := Z.to_nat i). set (j' := Z.to_nat j).
  assert (Ei : i = Z.of_nat i') by (unfold i'; lia).
  assert (Ej : j = Z.of_nat j') by (unfold j'; lia).
  assert (Hi' : (i' < length a)%nat) by lia.
  assert (Hj' : (j' < length a)%nat) by lia.
  destruct (lookup_lt_is_Some_2 a i' Hi') as [x Hx].
  set (b := delete i' a).
  assert (Hb : length b = (length a - 1)%nat)
    by (apply length_delete; eauto).
  assert (Htake : length (take j' b) = j') by (apply length_take_le; lia).
  assert (Hr : r = take j' b ++ x :: drop j' b).
  { unfold r. rewrite Ei, Ej. now apply arrayMove_in_range. }
  assert (Hperm : a ≡ₚ r).
  { rewrite Hr, <- Permutation_middle, take_drop.
    now apply delete_Permutation. }
  split; [symmetry; now apply Permutation_length|].
  split; [exact Hperm|].
  split; [rewrite Hr, Hx; now apply list_lookup_middle|].
  split; [rewrite Hr, delete_at_length by done; apply take_drop|].
  split.
  { rewrite Ei at 1 2. rewrite (arrayMove_in_range a i' i' x Hx Hi').
    rewrite delete_take_drop.
    rewrite take_app_length' by (rewrite length_take_le; lia).
    rewrite drop_app_length' by (rewrite length_take_le; lia).
    now apply take_drop_middle. }
  unfold after. rewrite arrayMoveAt_arrayMove, Hh. simpl default.
  fold r. cbn [fst snd].
  pose proof (lookup_lt_Some _ _ _ Hh) as Haddr.
  split; [now apply list_lookup_middle|].
  split; [lia|].
  split; [rewrite lookup_app_l by lia; exact Hh|].
  intros k Hk. now rewrite lookup_app_l by lia.
Qed.
End ArrayFacts.

(** Moving "b" from index 1 to index 3 in a five-element array stored at
    address 0. *)
Lemma arrayMove_moves_one_element_witness :
  [["a"; "b"; "c"; "d"; "e"]] !! 0%nat = Some ["a"; "b"; "c"; "d"; "e"]
  /\ 0 <= 1 < Z.of_nat (length ["a"; "b"; "c"; "d"; "e"])
  /\ 0 <= 3 < Z.of_nat (length ["a"; "b"; "c"; "d"; "e"])
  /\ ["a"; "b"; "c"; "d"; "e"] ≡ₚ arrayMove "" ["a"; "b"; "c"; "d"; "e"] 1 3
  /\ (arrayMoveAt "" [["a"; "b"; "c"; "d"; "e"]] 0 1 3).1 !! 0%nat
     = Some ["a"; "b"; "c"; "d"; "e"].
Proof.
  assert (Hi : 0 <= 1 < Z.of_nat (length ["a"; "b"; "c"; "d"; "e"]))
    by (simpl; lia).
  assert (Hj : 0 <= 3 < Z.of_nat (length ["a"; "b"; "c"; "d"; "e"]))
    by (simpl; lia).
  split; [reflexivity|]. split; [exact Hi|]. split; [exact Hj|].
  pose proof (arrayMove_moves_one_element ""
                [["a"; "b"; "c"; "d"; "e"]] 0 ["a"; "b"; "c"; "d"; "e"] 1 3
                eq_refl Hi Hj) as H.
  exact (conj (proj1 (proj2 H))
           (proj1 (proj2 (proj2 (proj2 (proj2 (proj2 (proj2 (proj2 H))))))))).
Defined.

(** * Further properties *)

(** ** The registry as a map *)

Lemma map_get_set_eq (m : Registry) id it : map_get (map_set m id it) id = Some it.
Proof.
  induction m as [|[k v] m IH]; simpl.
  - now rewrite String.eqb_refl.
  - destruct (String.eqb k id) eqn:E; simpl; rewrite E; [reflexivity|exact IH].
Qed.

Lemma map_get_set_ne (m : Registry) id it k :
  k <> id -> map_get (map_set m id it) k = map_get m k.
Proof.
  intros Hne. induction m as [|[k' v] m IH]; simpl.
  - apply String.eqb_neq in Hne. rewrite String.eqb_sym. now rewrite Hne.
  - destruct (String.eqb k' id) eqn:E; simpl.
    + apply String.eqb_eq in E. subst k'.
      assert (String.eqb id k = false) as ->; [|reflexivity].
      apply String.eqb_neq. congruence.
    + destruct (String.eqb k' k); [reflexivity|exact IH].
Qed.

Lemma registryKeys_set_known (m : Registry) id it :
  id ∈ registryKeys m -> registryKeys (map_set m id it) = registryKeys m.
Proof.
  unfold registryKeys. induction m as [|[k v] m IH]; simpl; intros H.
  - inversion H.
  - destruct (String.eqb k id) eqn:E; simpl; [reflexivity|].
    f_equal. apply IH. apply elem_of_cons in H as [H|H]; [|exact H].
    apply String.eqb_neq in E. congruence.
Qed.

Lemma registryKeys_set_new (m : Registry) id it :
  id ∉ registryKeys m -> registryKeys (map_set m id it) = registryKeys m ++ [id].
Proof.
  unfold registryKeys. induction m as [|[k v] m IH]; simpl; intros H.
  - reflexivity.
  - apply not_elem_of_cons in H as [Hne H].
    assert (String.eqb k id = false) as -> by (apply String.eqb_neq; congruence).
    simpl. f_equal. now apply IH.
Qed.

Lemma map_delete_unknown (m : Registry) id :
  id ∉ registryKeys m -> map_delete m id = m.
Proof.
  unfold registryKeys. induction m as [|[k v] m IH]; simpl; intros H.
  - reflexivity.
  - apply not_elem_of_cons in H as [Hne H].
    assert (String.eqb k id = false) as -> by (apply String.eqb_neq; congruence).
    f_equal. now apply IH.
Qed.

Lemma map_get_unknown (m : Registry) id :
  id ∉ registryKeys m -> map_get m id = None.
Proof.
  unfold registryKeys. induction m as [|[k v] m IH]; simpl; intros H.
  - reflexivity.
  - apply not_elem_of_cons in H as [Hne H].
    assert (String.eqb k id = false) as -> by (apply String.eqb_neq; congruence).
    now apply IH.
Qed.

Lemma registryKeys_delete_subset (m : Registry) id k :
  k ∈ registryKeys (map_delete m id) -> k ∈ registryKeys m.
Proof.
  unfold registryKeys. induction m as [|[k' v] m IH]; simpl; intros H.
  - exact H.
  - destruct (String.eqb k' id); simpl in *.
    + now apply elem_of_cons; right.
    + apply elem_of_cons in H as [H|H]; apply elem_of_cons; auto.
Qed.

Lemma NoDup_keys_set (m : Registry) id it :
  NoDup (registryKeys m) -> NoDup (registryKeys (map_set m id it)).
Proof.
  intros H. destruct (decide (id ∈ registryKeys m)) as [Hin|Hout].
  - now rewrite registryKeys_set_known.
  - rewrite registryKeys_set_new by exact Hout.
    apply NoDup_app. split; [exact H|]. split.
    + intros x Hx Hx'. apply list_elem_of_singleton in Hx'. congruence.
    + apply NoDup_singleton.
Qed.

Lemma NoDup_keys_delete (m : Registry) id :
  NoDup (registryKeys m) -> NoDup (registryKeys (map_delete m id)).
Proof.
  unfold registryKeys. induction m as [|[k v] m IH]; simpl; intros H.
  - exact H.
  - apply NoDup_cons in H as [Hk H].
    destruct (String.eqb k id); simpl; [exact H|].
    apply NoDup_cons. split; [|now apply IH].
    intros Hin. apply Hk. now apply (registryKeys_delete_subset m id).
Qed.

Lemma map_get_delete_eq (m : Registry) id :
  NoDup (registryKeys m) -> map_get (map_delete m id) id = None.
Proof.
  unfold registryKeys. induction m as [|[k v] m IH]; simpl; intros H.
  - reflexivity.
  - apply NoDup_cons in H as [Hk H].
    destruct (String.eqb k id) eqn:E; simpl.
    + apply String.eqb_eq in E. subst k. now apply map_get_unknown.
    + rewrite E. now apply IH.
Qed.

Lemma map_get_delete_ne (m : Registry) id k :
  k <> id -> map_get (map_delete m id) k = map_get m k.
Proof.
  intros Hne. induction m as [|[k' v] m IH]; simpl.
  - reflexivity.
  - destruct (String.eqb k' id) eqn:E; simpl.
    + apply String.eqb_eq in E. subst k'.
      assert (String.eqb id k = false) as ->; [|reflexivity].
      apply String.eqb_neq. congruence.
    + destruct (String.eqb k' k); [reflexivity|exact IH].
Qed.

Lemma map_get_middle (before after : Registry) id it :
  NoDup (registryKeys (before ++ (id, it) :: after)) ->
  map_get (before ++ (id, it) :: after) id = Some it.
Proof.
  unfold registryKeys. induction before as [|[k v] before IH]; simpl; intros H.
  - now rewrite String.eqb_refl.
  - apply NoDup_cons in H as [Hk H].
    assert (String.eqb k id = false) as ->.
    { apply String.eqb_neq. intros ->. apply Hk.
      rewrite fmap_app. apply elem_of_app. right. simpl. apply elem_of_cons. now left. }
    now apply IH.
Qed.

Lemma reachable_NoDup_keys cfg p :
  reachable cfg p -> NoDup (registryKeys (itemsRef p)).
Proof.
  induction 1 as [|p dom i _ IH].
  - apply NoDup_nil_2.
  - destruct i as [rid ridx rel|uid|sid sidx spos sel|pos|e| |]; simpl.
    + now apply NoDup_keys_set.
    + now apply NoDup_keys_delete.
    + exact IH.
    + destruct (updateDrag_identity cfg dom p pos) as (_ & _ & _ & _ & _ & ->).
      exact IH.
    + unfold windowListener. destruct (isDragging (state p)) eqn:E; [|exact IH].
      destruct e as [| | | |key]; unfold endDrag; rewrite ?E; simpl; try exact IH.
      destruct (String.eqb key "Escape"); simpl; rewrite ?E; exact IH.
    + unfold controlsCancel, endDrag. destruct (isDragging (state p)); exact IH.
    + unfold controlsComplete, endDrag. destruct (isDragging (state p)); exact IH.
Qed.

(** X1.  Registering an item and looking it up: the registry returns the
    element and the index just registered for that id (whether the id was
    new or already present), and every other id reads as before. *)
Theorem register_then_lookup
    (items : Registry) (id : string) (idx : Z) (el : Element) (k : string) :
  getItemElement (registerItem items id idx el) id = Some el
  /\ getItemIndex (registerItem items id idx el) id = idx
  /\ (k <> id ->
      getItemElement (registerItem items id idx el) k = getItemElement items k
      /\ getItemIndex (registerItem items id idx el) k = getItemIndex items k).
Proof.
  unfold getItemElement, getItemIndex, registerItem.
  rewrite map_get_set_eq. simpl.
  split; [reflexivity|]. split; [reflexivity|].
  intros Hne. now rewrite (map_get_set_ne _ _ _ _ Hne).
Qed.

Lemma register_then_lookup_witness :
  "c" <> "b"
  /\ getItemIndex (registerItem sampleItems "b" 7 9%nat) "b" = 7
  /\ getItemIndex (registerItem sampleItems "b" 7 9%nat) "c" = 2.
Proof.
  assert (Hne : "c" <> "b") by discriminate.
  split; [exact Hne|].
  pose proof (register_then_lookup sampleItems "b" 7 9%nat "c") as (_ & Hi & Ho).
  split; [exact Hi|]. exact (proj2 (Ho Hne)).
Defined.

(** X2.  In every reachable provider no id is registered twice; so after
    unregistering an id, [getItemIndex] answers -1 and [getItemElement]
    nothing for it, while every other id reads as before. *)
Theorem unregister_then_lookup
    (cfg : Config) (p : Provider) (id k : string) :
  reachable cfg p ->
  NoDup (registryKeys (itemsRef p))
  /\ getItemIndex (unregisterItem (itemsRef p) id) id = -1
  /\ getItemElement (unregisterItem (itemsRef p) id) id = None
  /\ (k <> id ->
      getItemElement (unregisterItem (itemsRef p) id) k
      = getItemElement (itemsRef p) k
      /\ getItemIndex (unregisterItem (itemsRef p) id) k
         = getItemIndex (itemsRef p) k).
Proof.
  intros Hr. pose proof (reachable_NoDup_keys cfg p Hr) as Hnd.
  unfold getItemElement, getItemIndex, unregisterItem.
  rewrite (map_get_delete_eq _ _ Hnd). simpl.
  split; [exact Hnd|]. split; [reflexivity|]. split; [reflexivity|].
  intros Hne. now rewrite (map_get_delete_ne _ _ _ Hne).
Qed.

Lemma unregister_then_lookup_witness :
  reachable DEFAULT_CONFIG draggingAOverB
  /\ getItemIndex (unregisterItem (itemsRef draggingAOverB) "b") "b" = -1.
Proof.
  split; [exact reachable_draggingAOverB|].
  exact (proj1 (proj2 (unregister_then_lookup DEFAULT_CONFIG draggingAOverB
                         "b" "c" reachable_draggingAOverB))).
Defined.

(** X3.  Iteration order of the registry: registering an id that is
    already present keeps every id at its place, registering a new id puts
    it last, and unregistering an id that is not present changes nothing. *)
Theorem registration_order
    (items : Registry) (id : string) (idx : Z) (el : Element) :
  (id ∈ registryKeys items ->
     registryKeys (registerItem items id idx el) = registryKeys items)
  /\ (id ∉ registryKeys items ->
        registryKeys (registerItem items id idx el) = registryKeys items ++ [id]
        /\ unregisterItem items id = items).
Proof.
  split.
  - apply registryKeys_set_known.
  - intros H. split; [now apply registryKeys_set_new|now apply map_delete_unknown].
Qed.

Lemma registration_order_witness :
  "b" ∈ registryKeys sampleItems
  /\ registryKeys (registerItem sampleItems "b" 7 9%nat) = ["a"; "b"; "c"; "d"; "e"].
Proof.
  assert (H : "b" ∈ registryKeys sampleItems).
  { apply elem_of_cons. right. apply elem_of_cons. now left. }
  split; [exact H|].
  exact (proj1 (registration_order sampleItems "b" 7 9%nat) H).
Defined.

(** ** More on the hit test *)

(** X4.  What the hit test returns is sound: with no id registered twice,
    the returned id is not the dragged one, it is registered, the returned
    index is the index registered for it (what [getItemIndex] answers), and
    the rectangle of its element contains the position. *)
Theorem hit_test_result_is_registered
    (dom : Dom) (items : Registry) (dragged : option string)
    (position : Position) (id : string) (idx : Z) :
  NoDup (registryKeys items) ->
  findItemAtPosition dom items dragged position = Some (id, idx) ->
  dragged <> Some id
  /\ getItemIndex items id = idx
  /\ exists el,
       getItemElement items id = Some el
       /\ rect_contains (getBoundingClientRect dom el) position = true.
Proof.
  intros Hnd Hfind.
  apply findItemAtPosition_Some in Hfind
    as (before & it & after & -> & <- & Hhit & _).
  unfold hitCandidate in Hhit. simpl in Hhit.
  apply andb_true_iff in Hhit as [Hd Hc]. apply negb_true_iff in Hd.
  unfold getItemIndex, getItemElement.
  rewrite (map_get_middle _ _ _ _ Hnd). simpl.
  split.
  - intros ->. simpl in Hd. now rewrite String.eqb_refl in Hd.
  - split; [reflexivity|]. now exists (element it).
Qed.

Lemma hit_test_result_is_registered_witness :
  NoDup (registryKeys sampleItems)
  /\ findItemAtPosition sampleDom sampleItems (Some "a") (at_ 10 70)
     = Some ("b", 1)
  /\ getItemIndex sampleItems "b" = 1.
Proof.
  assert (Hnd : NoDup (registryKeys sampleItems)).
  { exact (reachable_NoDup_keys DEFAULT_CONFIG draggingAOverB
             reachable_draggingAOverB). }
  split; [exact Hnd|]. split; [reflexivity|].
  exact (proj1 (proj2 (hit_test_result_is_registered sampleDom sampleItems
           (Some "a") (at_ 10 70) "b" 1 Hnd eq_refl))).
Defined.

(** X5.  When at most one registered entry can be hit at a position (no
    two candidates' rectangles overlap there), the hit test does not
    depend on the registration order. *)
Theorem hit_test_order_irrelevant_without_overlap
    (dom : Dom) (items items' : Registry) (dragged : option string)
    (position : Position) :
  items ≡ₚ items' ->
  (forall e1 e2, e1 ∈ items -> e2 ∈ items ->
     hitCandidate dom dragged position e1 = true ->
     hitCandidate dom dragged position e2 = true -> e1 = e2) ->
  findItemAtPosition dom items dragged position
  = findItemAtPosition dom items' dragged position.
Proof.
  intros Hperm Huniq.
  destruct (findItemAtPosition dom items dragged position) as [[id idx]|] eqn:E.
  - apply findItemAtPosition_Some in E
      as (before & it & after & Hitems & <- & Hhit & _).
    assert (Hin : (id, it) ∈ items).
    { rewrite Hitems. apply elem_of_app. right. apply elem_of_cons. now left. }
    destruct (findItemAtPosition dom items' dragged position)
      as [[id' idx']|] eqn:E'.
    + apply findItemAtPosition_Some in E'
        as (before' & it' & after' & Hitems' & <- & Hhit' & _).
      assert (Hin' : (id', it') ∈ items).
      { rewrite Hperm, Hitems'. apply elem_of_app. right.
        apply elem_of_cons. now left. }
      pose proof (Huniq _ _ Hin Hin' Hhit Hhit') as [= -> ->]. reflexivity.
    + apply findItemAtPosition_None in E'.
      rewrite <- Hperm in E'. rewrite Forall_forall in E'.
      specialize (E' _ Hin). congruence.
  - apply findItemAtPosition_None in E. symmetry.
    apply findItemAtPosition_None. now rewrite <- Hperm.
Qed.

Lemma hit_test_order_irrelevant_without_overlap_witness :
  findItemAtPosition sampleDom [("a", mkItem 0 0%nat); ("b", mkItem 1 1%nat)]
    None (at_ 10 70)
  = findItemAtPosition sampleDom [("b", mkItem 1 1%nat); ("a", mkItem 0 0%nat)]
      None (at_ 10 70).
Proof.
  apply hit_test_order_irrelevant_without_overlap.
  - apply Permutation_swap.
  - intros e1 e2 H1 H2.
    apply elem_of_cons in H1 as [->|H1];
      [|apply list_elem_of_singleton in H1 as ->];
      (apply elem_of_cons in H2 as [->|H2];
        [|apply list_elem_of_singleton in H2 as ->]);
      intros C1 C2; try reflexivity; discriminate.
Defined.

(** ** The shape of the session *)

Lemma atRest_initial : atRest initialProvider.
Proof. repeat split. Qed.

Lemma atRest_endDrag cfg p cancelled :
  isDragging (state p) = true -> atRest (endDrag cfg p cancelled).1.
Proof. intros H. unfold endDrag. rewrite H. repeat split. Qed.

Lemma fullyActive_dragging p : fullyActive p -> isDragging (state p) = true.
Proof. intros (id & idx & over & ini & cur & off & el & -> & _). reflexivity. Qed.

Lemma atRest_not_dragging p : atRest p -> isDragging (state p) = false.
Proof. intros (-> & _). reflexivity. Qed.

Lemma shape_step cfg dom p i :
  atRest p \/ fullyActive p ->
  atRest (step cfg dom p i).1 \/ fullyActive (step cfg dom p i).1.
Proof.
  intros H.
  assert (Hend : forall c,
    atRest (endDrag cfg p c).1 \/ fullyActive (endDrag cfg p c).1).
  { intros c. destruct H as [H|H].
    - left. unfold endDrag. rewrite (atRest_not_dragging _ H). exact H.
    - left. apply atRest_endDrag. now apply fullyActive_dragging. }
  destruct i as [rid ridx rel|uid|sid sidx spos sel|pos|e| |]; simpl.
  - exact H.
  - exact H.
  - right. unfold fullyActive. simpl. eauto 20.
  - destruct H as [H|H].
    + left. unfold updateDrag. rewrite (atRest_not_dragging _ H). exact H.
    + right. destruct H as (id & idx & over & ini & cur & off & el & Hs & Hi & He).
      unfold updateDrag, fullyActive. rewrite Hs. simpl.
      destruct (findItemAtPosition _ _ _ _) as [[oid oi]|]; eauto 20.
  - unfold windowListener. destruct (isDragging (state p)) eqn:E; [|exact H].
    destruct e as [| | | |key]; try apply Hend.
    destruct (String.eqb key "Escape"); [apply Hend|exact H].
  - apply Hend.
  - apply Hend.
Qed.

Lemma reachable_shape cfg p : reachable cfg p -> atRest p \/ fullyActive p.
Proof.
  induction 1 as [|p dom i _ IH].
  - left. apply atRest_initial.
  - now apply shape_step.
Qed.

Lemma fullyActive_startDrag cfg dom p id idx position el :
  fullyActive (startDrag cfg dom p id idx position el).1.
Proof. unfold fullyActive. simpl. eauto 20. Qed.

Lemma fullyActive_updateDrag cfg dom p position :
  fullyActive p -> fullyActive (updateDrag cfg dom p position).1.
Proof.
  intros (id & idx & over & ini & cur & off & el & Hs & Hi & He).
  unfold updateDrag, fullyActive. rewrite Hs. simpl.
  destruct (findItemAtPosition _ _ _ _) as [[oid oi]|]; eauto 20.
Qed.

Lemma endDrag_endDragFrom cfg p cancelled :
  endDrag cfg p cancelled = endDragFrom cfg (state p) p cancelled.
Proof. reflexivity. Qed.

Lemma filter_isDragStart_haptic cfg kind rest :
  List.filter isDragStart (haptic cfg kind ++ rest)
  = List.filter isDragStart rest.
Proof. unfold haptic. destruct (hapticFeedback cfg); reflexivity. Qed.

(** X6.  [startDrag] is not atomic.  While it is suspended at
    [await initScrollContainer(element)] on a provider that was not
    dragging, the provider is still not dragging although the
    dragged-element and origin-index refs are already set, so the session
    is not at rest; a release or a cancellation arriving now is not seen:
    every window listener and both [useDragControls] actions leave the
    provider as it is and notify nobody.  When [startDrag] resumes, it
    completes exactly as the uninterrupted call does: the drag becomes
    active and one drag-start and no drag-end is notified. *)
Theorem release_while_start_is_suspended_is_lost
    (cfg : Config) (dom : Dom) (p : Provider) (id : string) (idx : Z)
    (position : Position) (el : Element) (inGetScrollElement : bool) :
  isDragging (state p) = false ->
  isDragging (state (startDragSuspended dom p idx el inGetScrollElement))
  = false
  /\ draggedElementRef (startDragSuspended dom p idx el inGetScrollElement)
     = Some el
  /\ initialIndexRef (startDragSuspended dom p idx el inGetScrollElement)
     = Some idx
  /\ ~ atRest (startDragSuspended dom p idx el inGetScrollElement)
  /\ (forall e,
        windowListener cfg
          (startDragSuspended dom p idx el inGetScrollElement) e
        = (startDragSuspended dom p idx el inGetScrollElement, []))
  /\ controlsCancel cfg (startDragSuspended dom p idx el inGetScrollElement)
     = (startDragSuspended dom p idx el inGetScrollElement, [])
  /\ controlsComplete cfg
       (startDragSuspended dom p idx el inGetScrollElement)
     = (startDragSuspended dom p idx el inGetScrollElement, [])
  /\ startDragResumed cfg dom
       (startDragSuspended dom p idx el inGetScrollElement)
       id idx position el inGetScrollElement
     = startDrag cfg dom p id idx position el
  /\ isDragging
       (state (startDragResumed cfg dom
                 (startDragSuspended dom p idx el inGetScrollElement)
                 id idx position el inGetScrollElement).1) = true
  /\ List.filter isDragStart
       (startDragResumed cfg dom
          (startDragSuspended dom p idx el inGetScrollElement)
          id idx position el inGetScrollElement).2 = [NDragStart id idx]
  /\ List.filter isDragEnd
       (startDragResumed cfg dom
          (startDragSuspended dom p idx el inGetScrollElement)
          id idx position el inGetScrollElement).2 = [].
Proof.
  intros Hd.
  split; [exact Hd|]. split; [reflexivity|]. split; [reflexivity|].
  split.
  { intros (_ & Hel & _). discriminate Hel. }
  split.
  { intros e. unfold windowListener. simpl. now rewrite Hd. }
  split.
  { unfold controlsCancel, endDrag. simpl. now rewrite Hd. }
  split.
  { unfold controlsComplete, endDrag. simpl. now rewrite Hd. }
  split.
  { unfold startDragResumed, startDragSuspended, startDrag. simpl.
    now destruct inGetScrollElement. }
  split; [reflexivity|].
  unfold startDragResumed. cbn [snd].
  rewrite filter_isDragStart_haptic, filter_isDragEnd_haptic.
  split; reflexivity.
Qed.

(** On the sample list: a press on row "b" whose [startDrag] is suspended
    in [getScrollElement()]; the pointer is released, which nothing
    handles, and the drag starts all the same. *)
Lemma release_while_start_is_suspended_is_lost_witness :
  isDragging (state sampleProvider) = false
  /\ windowListener DEFAULT_CONFIG
       (startDragSuspended sampleDom sampleProvider 1 1%nat true) WPointerUp
     = (startDragSuspended sampleDom sampleProvider 1 1%nat true, [])
  /\ isDragging
       (state (startDragResumed DEFAULT_CONFIG sampleDom
                 (startDragSuspended sampleDom sampleProvider 1 1%nat true)
                 "b" 1 (at_ 10 60) 1%nat true).1) = true.
Proof.
  split; [reflexivity|].
  pose proof (release_while_start_is_suspended_is_lost DEFAULT_CONFIG
                sampleDom sampleProvider "b" 1 (at_ 10 60) 1%nat true
                eq_refl) as H.
  split.
  - exact (proj1 (proj2 (proj2 (proj2 (proj2 H)))) WPointerUp).
  - exact (proj1 (proj2 (proj2 (proj2 (proj2 (proj2 (proj2 (proj2
             (proj2 H))))))))).
Defined.

(** X7.  An [endDrag] call whose closure is the state of the provider, on
    a session in which every field is set and the origin-index ref equals
    [draggedIndex], takes none of its fallbacks: the one drag-end it
    notifies carries the dragged id, [draggedIndex] as [fromIndex], and as
    [toIndex] the current [overIndex] when committing and [draggedIndex]
    when cancelling; and it leaves the session at rest.  An uninterrupted
    [startDrag] produces such a session from any provider, and
    [updateDrag] keeps it one. *)
Theorem settled_session_drag_end_payload
    (cfg : Config) (dom : Dom) (p : Provider) :
  fullyActive p ->
  (exists id idx over,
     draggedId (state p) = Some id
     /\ draggedIndex (state p) = Some idx
     /\ overIndex (state p) = Some over
     /\ initialIndexRef p = Some idx
     /\ forall cancelled,
          List.filter isDragEnd (endDrag cfg p cancelled).2
          = [NDragEnd (Some id) idx (if cancelled then idx else over)
                      cancelled]
          /\ atRest (endDrag cfg p cancelled).1)
  /\ (forall position, fullyActive (updateDrag cfg dom p position).1)
  /\ (forall q id idx position el,
        fullyActive (startDrag cfg dom q id idx position el).1).
Proof.
  intros H. split; [|split].
  - pose proof (fullyActive_dragging _ H) as Hd.
    destruct H as (id & idx & over & ini & cur & off & el & Hs & Hi & He).
    exists id, idx, over. rewrite Hs. simpl.
    split; [reflexivity|]. split; [reflexivity|]. split; [reflexivity|].
    split; [exact Hi|].
    intros cancelled. split; [|now apply atRest_endDrag].
    destruct (endDrag_active cfg p cancelled Hd) as [-> _].
    unfold endToIndex, endFromIndex. rewrite Hi, Hs. simpl.
    now destruct cancelled.
  - intros position. now apply fullyActive_updateDrag.
  - intros q id idx position el. apply fullyActive_startDrag.
Qed.

(** Row "a" of the sample list, dragged over row "b" and then released or
    cancelled. *)
Lemma settled_session_drag_end_payload_witness :
  fullyActive draggingAOverB
  /\ List.filter isDragEnd (endDrag DEFAULT_CONFIG draggingAOverB false).2
     = [NDragEnd (Some "a") 0 1 false]
  /\ List.filter isDragEnd (endDrag DEFAULT_CONFIG draggingAOverB true).2
     = [NDragEnd (Some "a") 0 0 true].
Proof.
  assert (Hfull : fullyActive draggingAOverB).
  { unfold fullyActive. do 7 eexists.
    split; [reflexivity|]. split; reflexivity. }
  split; [exact Hfull|].
  destruct (proj1 (settled_session_drag_end_payload DEFAULT_CONFIG sampleDom
                     draggingAOverB Hfull))
    as (id & idx & over & Hid & Hidx & Hover & _ & Hend).
  injection Hid as <-. injection Hidx as <-. injection Hover as <-.
  split.
  - exact (proj1 (Hend false)).
  - exact (proj1 (Hend true)).
Defined.

(** ** Counting notifications *)

Lemma countOf_endDragFrom cfg closure p cancelled :
  isDragging closure = true ->
  countOf isDragEnd (endDragFrom cfg closure p cancelled).2 = 1%nat.
Proof.
  intros H. unfold countOf, endDragFrom. rewrite H. cbn [negb snd].
  now rewrite filter_isDragEnd_haptic.
Qed.

(** X8.  [endDrag] ends a drag once per committed render, not once per
    drag.  Two calls of the callback of one render that saw the drag
    active (such as [cancel(); cancel()] from [useDragControls]) notify
    one drag-end each: the refs cleared by the first call do not stop the
    second, which finds the origin-index ref empty, reports
    [state.draggedIndex ?? 0] of its closure as [fromIndex], and leaves
    the provider as the first call left it.  A call of the callback of the
    next render, whose closure is the state the first call set, does
    nothing. *)
Theorem end_drag_repeats_within_one_render
    (cfg : Config) (closure : DragState) (p : Provider) (c1 c2 : bool) :
  isDragging closure = true ->
  countOf isDragEnd (endDragFrom cfg closure p c1).2 = 1%nat
  /\ countOf isDragEnd
       (endDragFrom cfg closure (endDragFrom cfg closure p c1).1 c2).2
     = 1%nat
  /\ List.filter isDragEnd
       (endDragFrom cfg closure (endDragFrom cfg closure p c1).1 c2).2
     = [NDragEnd (draggedId closure)
          (default 0 (draggedIndex closure))
          (if c2 then default 0 (draggedIndex closure)
           else default (default 0 (draggedIndex closure))
                        (overIndex closure))
          c2]
  /\ (endDragFrom cfg closure (endDragFrom cfg closure p c1).1 c2).1
     = (endDragFrom cfg closure p c1).1
  /\ endDragFrom cfg (state (endDragFrom cfg closure p c1).1)
       (endDragFrom cfg closure p c1).1 c2
     = ((endDragFrom cfg closure p c1).1, [])
  /\ endDrag cfg (endDragFrom cfg closure p c1).1 c2
     = ((endDragFrom cfg closure p c1).1, []).
Proof.
  intros H.
  split; [now apply countOf_endDragFrom|].
  split; [now apply countOf_endDragFrom|].
  unfold endDrag, endDragFrom. rewrite H. cbn [negb fst snd].
  cbn [state initialIndexRef scrollOffset itemsRef autoScrollRefs
       isDragging idleState negb].
  rewrite filter_isDragEnd_haptic.
  repeat split.
Qed.

(** Row "a" of the sample list dragged over row "b": [cancel()] twice
    from one render notifies two drag-ends. *)
Lemma end_drag_repeats_within_one_render_witness :
  isDragging (state draggingAOverB) = true
  /\ List.filter isDragEnd
       (endDragFrom DEFAULT_CONFIG (state draggingAOverB) draggingAOverB
          true).2
     ++ List.filter isDragEnd
          (endDragFrom DEFAULT_CONFIG (state draggingAOverB)
             (endDragFrom DEFAULT_CONFIG (state draggingAOverB)
                draggingAOverB true).1 true).2
     = [NDragEnd (Some "a") 0 0 true; NDragEnd (Some "a") 0 0 true].
Proof.
  split; [reflexivity|].
  pose proof (end_drag_repeats_within_one_render DEFAULT_CONFIG
                (state draggingAOverB) draggingAOverB true true eq_refl)
    as (_ & _ & H & _).
  rewrite H. reflexivity.
Defined.

(** ** What the overlay and the dragged item render *)

Lemma orZero_eq (v : Q) : (orZero v == v)%Q.
Proof.
  unfold orZero. destruct (Qeq_bool v 0) eqn:E; [|reflexivity].
  apply Qeq_bool_iff in E. now symmetry.
Qed.

(** X9.  The overlay is anchored on the dragged element: right after
    [startDrag] its translation equals the top-left corner of the
    element's rectangle, wherever inside the element the pointer went
    down. *)
Theorem overlay_starts_on_element_corner
    (cfg : Config) (dom : Dom) (p : Provider)
    (id : string) (idx : Z) (position : Position) (el : Element) :
  exists t,
    overlayTranslate (state (startDrag cfg dom p id idx position el).1) = Some t
    /\ Peq t {| pos_x := rect_left (getBoundingClientRect dom el);
                pos_y := rect_top (getBoundingClientRect dom el) |}.
Proof.
  unfold startDrag, overlayTranslate. simpl.
  eexists. split; [reflexivity|]. unfold Peq. simpl.
  rewrite !orZero_eq. split; ring.
Qed.

(** X10.  For a reachable provider the overlay is hidden exactly when
    nothing is dragged; while a drag is active it sits at the current
    position minus the offset recorded at drag start, an offset that
    pointer moves never change. *)
Theorem overlay_follows_pointer_minus_offset
    (cfg : Config) (dom : Dom) (p : Provider) (position : Position) :
  reachable cfg p ->
  (overlayTranslate (state p) = None <-> isDragging (state p) = false)
  /\ (isDragging (state p) = true ->
      exists cur off t,
        currentPosition (state p) = Some cur
        /\ offset (state p) = Some off
        /\ offset (state (updateDrag cfg dom p position).1) = Some off
        /\ overlayTranslate (state p) = Some t
        /\ Peq t {| pos_x := pos_x cur - pos_x off;
                    pos_y := pos_y cur - pos_y off |}).
Proof.
  intros Hr. destruct (reachable_shape cfg p Hr) as [H|H].
  - destruct H as (Hs & _). rewrite Hs. simpl.
    split; [tauto|discriminate].
  - destruct H as (id & idx & over & ini & cur & off & el & Hs & _).
    unfold updateDrag. rewrite Hs. simpl.
    split; [split; discriminate|].
    intros _. exists cur, off. eexists.
    split; [reflexivity|]. split; [reflexivity|]. split; [reflexivity|].
    split; [reflexivity|]. unfold Peq. simpl. rewrite !orZero_eq.
    split; reflexivity.
Qed.

Lemma overlay_follows_pointer_minus_offset_witness :
  isDragging (state draggingAOverB) = true
  /\ exists t, overlayTranslate (state draggingAOverB) = Some t.
Proof.
  split; [reflexivity|].
  destruct (proj2 (overlay_follows_pointer_minus_offset DEFAULT_CONFIG sampleDom
                     draggingAOverB (at_ 0 0) reachable_draggingAOverB) eq_refl)
    as (cur & off & t & _ & _ & _ & Ht & _).
  now exists t.
Defined.

Lemma is_dragged_self (id : string) : is_dragged id (Some id) = true.
Proof. simpl. apply String.eqb_refl. Qed.

(** X11.  A drag starts without a jump: right after [startDrag] the
    transform of the dragged item is zero (the accumulated scroll offset
    is reset and the current position is the initial one), and every item
    with another id has no drag transform. *)
Theorem drag_transform_starts_at_zero
    (cfg : Config) (dom : Dom) (p : Provider) (h other : Sortable)
    (position : Position) (el : Element) :
  let started := (startDrag cfg dom p (s_id h) (s_index h) position el).1 in
  (exists t,
     dragTransform (state started) (scrollOffset started) h = Some t
     /\ Peq t zeroPosition)
  /\ (s_id other <> s_id h ->
      dragTransform (state started) (scrollOffset started) other = None).
Proof.
  intros started. subst started. unfold startDrag, dragTransform, hookIsDragging.
  simpl draggedId. split.
  - assert (E := is_dragged_self (s_id h)). simpl in E. simpl. rewrite E. simpl.
    eexists. split; [reflexivity|]. unfold Peq. simpl. split; ring.
  - intros Hne. simpl.
    assert (String.eqb (s_id other) (s_id h) = false) as ->
      by now apply String.eqb_neq.
    reflexivity.
Qed.

Lemma drag_transform_starts_at_zero_witness :
  s_id (sampleHook "c" 2 2%nat) <> s_id hookB
  /\ dragTransform
       (state (startDrag DEFAULT_CONFIG sampleDom sampleProvider "b" 1
                 (at_ 10 70) 1%nat).1)
       (scrollOffset (startDrag DEFAULT_CONFIG sampleDom sampleProvider "b" 1
                        (at_ 10 70) 1%nat).1)
       (sampleHook "c" 2 2%nat) = None.
Proof.
  assert (Hne : s_id (sampleHook "c" 2 2%nat) <> s_id hookB) by discriminate.
  split; [exact Hne|].
  exact (proj2 (drag_transform_starts_at_zero DEFAULT_CONFIG sampleDom
                  sampleProvider hookB (sampleHook "c" 2 2%nat) (at_ 10 70)
                  1%nat) Hne).
Defined.



(** ** More on the displacement *)

(** The displacement effect clears the transform of an item when nothing
    is dragged, when the item is the dragged one, when the item is not
    mounted, and when the pointer is over the origin index (or over nothing
    yet). *)
Lemma displacementEffect_none_cases
    (dom : Dom) (st : DragState) (items : Registry) (h : Sortable) :
  isDragging st = false
  \/ hookIsDragging st h = true
  \/ elementRef h = None
  \/ overIndex st = None
  \/ overIndex st = draggedIndex st ->
  displacementEffect dom st items h = None.
Proof.
  unfold displacementEffect, isAnotherDragging, hookIsDragging, isMounted.
  intros [H|[H|[H|[H|H]]]].
  - now rewrite H.
  - rewrite H. simpl. now rewrite andb_false_r.
  - rewrite H. simpl. now rewrite orb_true_r.
  - rewrite H. destruct (_ || _); [reflexivity|].
    cbv zeta. z_cases; try lia; reflexivity.
  - rewrite H. destruct (_ || _); [reflexivity|].
    cbv zeta. destruct (draggedIndex st); simpl; z_cases; try lia;
      reflexivity.
Qed.

Lemma displacementEffect_is_Some dom st items h d de origin over :
  isDragging st = true ->
  draggedId st = Some d ->
  draggedIndex st = Some origin ->
  overIndex st = Some over ->
  getItemElement items d = Some de ->
  isMounted h = true ->
  (s_id h = d -> s_index h = origin) ->
  is_Some (displacementEffect dom st items h)
  <-> (origin < over /\ origin < s_index h /\ s_index h <= over)
      \/ (over < origin /\ over <= s_index h /\ s_index h < origin).
Proof.
  intros Hd Hid Ho Hv Hde Hm Hown.
  destruct (decide (d = s_id h)) as [E|Hne].
  - assert (Hidx : s_index h = origin) by (apply Hown; congruence).
    assert (Hnone : displacementEffect dom st items h = None).
    { apply displacementEffect_none_cases. right. left.
      unfold hookIsDragging. rewrite Hid, <- E. apply String.eqb_refl. }
    rewrite Hnone. split; [intros [? [=]]|lia].
  - destruct (elementRef h) as [el|] eqn:Hel;
      [|unfold isMounted in Hm; now rewrite Hel in Hm].
    rewrite (displacementEffect_spec dom st items h el de d origin over)
      by assumption.
    unfold spec_displacement.
    z_cases; split; intros Hs; try lia; try (now eexists);
      destruct Hs as [? [=]].
Qed.

Lemma filter_all {A} (P : A -> Prop) `{forall x, Decision (P x)} (l : list A) :
  Forall P l -> filter P l = l.
Proof.
  induction 1 as [|x l Hx _ IH]; [reflexivity|].
  now rewrite filter_cons_True, IH.
Qed.

Lemma filter_none {A} (P : A -> Prop) `{forall x, Decision (P x)} (l : list A) :
  Forall (fun x => ~ P x) l -> filter P l = [].
Proof.
  induction 1 as [|x l Hx _ IH]; [reflexivity|].
  now rewrite filter_cons_False.
Qed.

Lemma count_interval (a b n : Z) :
  0 <= a -> a <= b -> b <= n ->
  length (filter (fun k => a <= k < b) (seqZ 0 n)) = Z.to_nat (b - a).
Proof.
  intros Ha Hab Hbn.
  replace n with (a + ((b - a) + (n - b))) by lia.
  rewrite seqZ_app by lia. rewrite seqZ_app by lia.
  rewrite !filter_app.
  rewrite (filter_none _ (seqZ 0 a)),
          (filter_all _ (seqZ (0 + a) (b - a))),
          (filter_none _ (seqZ (0 + a + (b - a)) (n - b))).
  - rewrite app_nil_r. simpl. apply length_seqZ.
  - apply Forall_forall. intros k Hk. apply elem_of_seqZ in Hk. lia.
  - apply Forall_forall. intros k Hk. apply elem_of_seqZ in Hk. lia.
  - apply Forall_forall. intros k Hk. apply elem_of_seqZ in Hk. lia.
Qed.

(** X13.  The displaced items fill the gap exactly: in a list whose rows
    have the indices 0 .. n-1 (all mounted, the dragged id at the origin
    index, the dragged element registered), the number of rows that get a
    displacement is the distance between the origin index and the over
    index. *)
Theorem displaced_rows_count_the_distance
    (dom : Dom) (st : DragState) (items : Registry) (rows : Z -> Sortable)
    (d : string) (de : Element) (origin over n : Z) :
  isDragging st = true ->
  draggedId st = Some d ->
  draggedIndex st = Some origin ->
  overIndex st = Some over ->
  getItemElement items d = Some de ->
  (forall k, s_index (rows k) = k
             /\ isMounted (rows k) = true
             /\ (s_id (rows k) = d -> k = origin)) ->
  0 <= origin < n ->
  0 <= over < n ->
  length (filter (fun k => is_Some (displacementEffect dom st items (rows k)))
                 (seqZ 0 n))
  = Z.to_nat (Z.abs (over - origin)).
Proof.
  intros Hd Hid Ho Hv Hde Hrows Hon Hvn.
  assert (Hiff : forall k,
    is_Some (displacementEffect dom st items (rows k))
    <-> (origin < over /\ origin < k /\ k <= over)
        \/ (over < origin /\ over <= k /\ k < origin)).
  { intros k. destruct (Hrows k) as (Hk & Hm & Hown).
    rewrite (displacementEffect_is_Some dom st items (rows k) d de origin over)
      by (try assumption; rewrite Hk; exact Hown).
    now rewrite Hk. }
  destruct (Z.lt_trichotomy origin over) as [Hlt|[Heq|Hgt]].
  - rewrite (list_filter_iff _ (fun k => origin + 1 <= k < over + 1))
      by (intros k; rewrite Hiff; lia).
    rewrite count_interval by lia. f_equal. lia.
  - rewrite (list_filter_iff _ (fun k => 0 <= k < 0))
      by (intros k; rewrite Hiff; lia).
    rewrite count_interval by lia. subst. f_equal. lia.
  - rewrite (list_filter_iff _ (fun k => over <= k < origin))
      by (intros k; rewrite Hiff; lia).
    rewrite count_interval by lia. f_equal. lia.
Qed.

Lemma displaced_rows_count_the_distance_witness :
  length (filter (fun k => is_Some (displacementEffect sampleDom
                    (state draggingBOverD) sampleItems
                    (sampleHook (if k =? 1 then "b" else "x") k 0%nat)))
                 (seqZ 0 5))
  = 2%nat.
Proof.
  apply (displaced_rows_count_the_distance sampleDom (state draggingBOverD)
           sampleItems
           (fun k => sampleHook (if k =? 1 then "b" else "x") k 0%nat)
           "b" 1%nat 1 3 5); try reflexivity; try lia.
  intros k. split; [reflexivity|]. split; [reflexivity|].
  simpl. destruct (Z.eqb_spec k 1) as [E|E]; [intros _; exact E|discriminate].
Defined.

(** X14.  When the dragged item's record is missing from the registry (for
    instance after it was unregistered during the gesture), the
    displacement effect computes no new transform: for every item the
    result is either no transform or the transform the item had before. *)
Theorem missing_dragged_record_freezes_displacement
    (cfg : Config) (dom : Dom) (p : Provider) (d : string) (h : Sortable) :
  reachable cfg p ->
  draggedId (state p) = Some d ->
  displacementEffect dom (state p) (unregisterItem (itemsRef p) d) h = None
  \/ displacementEffect dom (state p) (unregisterItem (itemsRef p) d) h
     = localTransform h.
Proof.
  intros Hr Hid.
  pose proof (reachable_NoDup_keys cfg p Hr) as Hnd.
  unfold displacementEffect, draggedElement, getItemElement, unregisterItem.
  rewrite Hid, (map_get_delete_eq _ _ Hnd). simpl.
  destruct (_ || _); [now left|].
  cbv zeta.
  match goal with
  | |- context [match ?dir with Some _ => localTransform h | None => None end] =>
      destruct dir; [now right|now left]
  end.
Qed.

Lemma missing_dragged_record_freezes_displacement_witness :
  draggedId (state draggingAOverB) = Some "a"
  /\ (displacementEffect sampleDom (state draggingAOverB)
        (unregisterItem (itemsRef draggingAOverB) "a") hookB = None
      \/ displacementEffect sampleDom (state draggingAOverB)
           (unregisterItem (itemsRef draggingAOverB) "a") hookB
         = localTransform hookB).
Proof.
  split; [reflexivity|].
  exact (missing_dragged_record_freezes_displacement DEFAULT_CONFIG sampleDom
           draggingAOverB "a" hookB reachable_draggingAOverB eq_refl).
Defined.

(** ** More on the scroll speed *)

Lemma Qmax_tenth_pos (i : Q) : (0.1 <= Qmax 0.1 i)%Q.
Proof. apply Q.le_max_l. Qed.

Lemma edgeSpeed_bounds (cfg : AutoScrollConfig) (d : Q) :
  (0 <= maxSpeed cfg)%Q -> (0 <= acceleration cfg)%Q ->
  (creepSpeed cfg <= edgeSpeed cfg d)%Q /\ (edgeSpeed cfg d <= maxSpeed cfg)%Q
  /\ (0 <= creepSpeed cfg)%Q.
Proof.
  intros Hm Ha. unfold edgeSpeed, creepSpeed.
  pose proof (Qmax_tenth_pos (intensity cfg d)) as Hi.
  set (i := Qmax 0.1 (intensity cfg d)) in *.
  assert (Hma : (0 <= maxSpeed cfg * acceleration cfg)%Q) by nra.
  split; [|split].
  - apply Q.min_le_compat_l. nra.
  - apply Q.le_min_l.
  - apply Q.min_glb; [exact Hm|nra].
Qed.

(** X15.  The scroll speed never exceeds [maxSpeed]: for a configuration
    with non-negative [maxSpeed] and [acceleration], both components of the
    computed speed lie between [-maxSpeed] and [maxSpeed], whatever the
    pointer position, the scroll element and its metrics. *)
Theorem scroll_speed_is_bounded
    (cfg : AutoScrollConfig) (dom : Dom) (scrollElement : option Element)
    (position : Position) :
  (0 <= maxSpeed cfg)%Q ->
  (0 <= acceleration cfg)%Q ->
  (Qabs (pos_x (calculateScrollSpeed cfg dom scrollElement position))
   <= maxSpeed cfg)%Q
  /\ (Qabs (pos_y (calculateScrollSpeed cfg dom scrollElement position))
      <= maxSpeed cfg)%Q.
Proof.
  intros Hm Ha.
  assert (Hb : forall d, (Qabs (edgeSpeed cfg d) <= maxSpeed cfg)%Q
                         /\ (Qabs (- edgeSpeed cfg d) <= maxSpeed cfg)%Q).
  { intros d. destruct (edgeSpeed_bounds cfg d Hm Ha) as (Hc & Hu & Hz).
    rewrite Qabs_opp, Qabs_pos by lra. now split. }
  assert (H0 : (Qabs 0 <= maxSpeed cfg)%Q) by exact Hm.
  unfold calculateScrollSpeed.
  destruct scrollElement as [se|]; [|now split].
  destruct (enabled cfg); simpl; [|now split].
  split.
  - destruct (_ && canScrollRight _); [apply Hb|].
    destruct (_ && canScrollLeft _); [apply Hb|exact H0].
  - destruct (_ && canScrollDown _); [apply Hb|].
    destruct (_ && canScrollUp _); [apply Hb|exact H0].
Qed.

Lemma scroll_speed_is_bounded_witness :
  (0 <= maxSpeed DEFAULT_AUTOSCROLL)%Q
  /\ (0 <= acceleration DEFAULT_AUTOSCROLL)%Q
  /\ (Qabs (pos_y (calculateScrollSpeed DEFAULT_AUTOSCROLL tallDom
                     (Some 100%nat) (at_ 10 30)))
      <= maxSpeed DEFAULT_AUTOSCROLL)%Q.
Proof.
  assert (Hm : (0 <= maxSpeed DEFAULT_AUTOSCROLL)%Q) by discriminate.
  assert (Ha : (0 <= acceleration DEFAULT_AUTOSCROLL)%Q) by discriminate.
  split; [exact Hm|]. split; [exact Ha|].
  exact (proj2 (scroll_speed_is_bounded DEFAULT_AUTOSCROLL tallDom
                  (Some 100%nat) (at_ 10 30) Hm Ha)).
Defined.

(** X16.  When nothing is to be scrolled the speed is exactly zero: with
    no scroll element resolved, with auto-scroll disabled, and whenever
    every edge is either at least [threshold] away from the pointer or
    has no scroll room left (in particular when the content fits the
    container). *)
Theorem scroll_speed_is_zero_when_idle
    (cfg : AutoScrollConfig) (dom : Dom) (se : Element) (position : Position) :
  calculateScrollSpeed cfg dom None position = zeroPosition
  /\ (enabled cfg = false ->
      calculateScrollSpeed cfg dom (Some se) position = zeroPosition)
  /\ ((forall e,
         edgeCanScroll (scrollMetrics dom se) e = false
         \/ (threshold cfg <= edgeDistance dom (scrollMetrics dom se) position e)%Q) ->
      calculateScrollSpeed cfg dom (Some se) position = zeroPosition).
Proof.
  split; [reflexivity|]. split.
  - intros H. unfold calculateScrollSpeed. now rewrite H.
  - intros H.
    assert (Ht : forall e,
      edgeTriggers cfg dom (scrollMetrics dom se) position e = false).
    { intros e. unfold edgeTriggers. destruct (H e) as [Hc|Hd].
      - rewrite Hc. apply andb_false_r.
      - apply Qltb_ge in Hd. now rewrite Hd. }
    pose proof (Ht TopEdge) as H1. pose proof (Ht BottomEdge) as H2.
    pose proof (Ht LeftEdge) as H3. pose proof (Ht RightEdge) as H4.
    unfold edgeTriggers in H1, H2, H3, H4. simpl in H1, H2, H3, H4.
    unfold calculateScrollSpeed. destruct (enabled cfg); [|reflexivity].
    simpl. now rewrite H1, H2, H3, H4.
Qed.

Lemma scroll_speed_is_zero_when_idle_witness :
  calculateScrollSpeed DEFAULT_AUTOSCROLL tallDom (Some 100%nat) (at_ 50 300)
  = zeroPosition.
Proof.
  apply (proj2 (proj2 (scroll_speed_is_zero_when_idle DEFAULT_AUTOSCROLL
                         tallDom 100%nat (at_ 50 300)))).
  intros [| | |].
  - right. discriminate.
  - right. discriminate.
  - left. reflexivity.
  - left. reflexivity.
Defined.

(** X17.  Direction, priority and creep: for an enabled configuration with
    non-negative [maxSpeed] and [acceleration], whenever the bottom edge
    triggers the vertical speed points down and lies between the creep
    speed min(maxSpeed, 0.1 * maxSpeed * acceleration) and [maxSpeed],
    whether or not the top edge triggers too; when only the top edge
    triggers it points up, within the same bounds.  The same holds for
    right over left. *)
Theorem triggering_edge_sets_direction_and_creep
    (cfg : AutoScrollConfig) (dom : Dom) (se : Element) (position : Position) :
  enabled cfg = true ->
  (0 <= maxSpeed cfg)%Q ->
  (0 <= acceleration cfg)%Q ->
  let m := scrollMetrics dom se in
  let speed := calculateScrollSpeed cfg dom (Some se) position in
  (edgeTriggers cfg dom m position BottomEdge = true ->
   (creepSpeed cfg <= pos_y speed <= maxSpeed cfg)%Q)
  /\ (edgeTriggers cfg dom m position BottomEdge = false ->
      edgeTriggers cfg dom m position TopEdge = true ->
      (- maxSpeed cfg <= pos_y speed <= - creepSpeed cfg)%Q)
  /\ (edgeTriggers cfg dom m position RightEdge = true ->
      (creepSpeed cfg <= pos_x speed <= maxSpeed cfg)%Q)
  /\ (edgeTriggers cfg dom m position RightEdge = false ->
      edgeTriggers cfg dom m position LeftEdge = true ->
      (- maxSpeed cfg <= pos_x speed <= - creepSpeed cfg)%Q).
Proof.
  intros He Hm Ha m speed. subst speed m.
  rewrite (calculateScrollSpeed_y cfg dom se position He),
          (calculateScrollSpeed_x cfg dom se position He).
  repeat split; intros; repeat match goal with
    | H : edgeTriggers _ _ _ _ _ = _ |- _ => rewrite H; clear H
    end;
    match goal with
    | |- context [edgeSpeed cfg ?d] =>
        destruct (edgeSpeed_bounds cfg d Hm Ha) as (? & ? & ?)
    end; lra.
Qed.

Lemma triggering_edge_sets_direction_and_creep_witness :
  edgeTriggers DEFAULT_AUTOSCROLL sampleDom sampleScrollMetrics (at_ 10 30)
    BottomEdge = true
  /\ (creepSpeed DEFAULT_AUTOSCROLL
      <= pos_y (calculateScrollSpeed DEFAULT_AUTOSCROLL sampleDom
                  (Some 100%nat) (at_ 10 30)))%Q.
Proof.
  split; [reflexivity|].
  assert (Hm : (0 <= maxSpeed DEFAULT_AUTOSCROLL)%Q) by discriminate.
  assert (Ha : (0 <= acceleration DEFAULT_AUTOSCROLL)%Q) by discriminate.
  exact (proj1 (proj1 (triggering_edge_sets_direction_and_creep
                  DEFAULT_AUTOSCROLL sampleDom 100%nat (at_ 10 30)
                  eq_refl Hm Ha) eq_refl)).
Defined.

Lemma edgeSpeed_at_edge (cfg : AutoScrollConfig) (d : Q) :
  (0 <= maxSpeed cfg)%Q -> (1 <= acceleration cfg)%Q -> (d <= 0)%Q ->
  (edgeSpeed cfg d == maxSpeed cfg)%Q.
Proof.
  intros Hm Ha Hd. unfold edgeSpeed, intensity.
  apply Qleb_le in Hd. rewrite Hd.
  assert (H1 : (Qmax 0.1 1 == 1)%Q) by (apply Q.max_r; discriminate).
  rewrite H1. apply Q.min_l. nra.
Qed.

(** X18.  Full speed at the edge: for an enabled configuration with
    non-negative [maxSpeed] and [acceleration] at least 1, a pointer on or
    beyond an edge toward which the container can scroll gets exactly
    [maxSpeed] toward that edge (for the top and left edges: provided the
    opposite edge does not trigger). *)
Theorem pointer_beyond_edge_scrolls_at_max_speed
    (cfg : AutoScrollConfig) (dom : Dom) (se : Element) (position : Position) :
  enabled cfg = true ->
  (0 <= maxSpeed cfg)%Q ->
  (1 <= acceleration cfg)%Q ->
  let m := scrollMetrics dom se in
  let speed := calculateScrollSpeed cfg dom (Some se) position in
  (edgeTriggers cfg dom m position BottomEdge = true ->
   (distanceFromBottom dom m position <= 0)%Q ->
   (pos_y speed == maxSpeed cfg)%Q)
  /\ (edgeTriggers cfg dom m position BottomEdge = false ->
      edgeTriggers cfg dom m position TopEdge = true ->
      (distanceFromTop dom m position <= 0)%Q ->
      (pos_y speed == - maxSpeed cfg)%Q)
  /\ (edgeTriggers cfg dom m position RightEdge = true ->
      (distanceFromRight dom m position <= 0)%Q ->
      (pos_x speed == maxSpeed cfg)%Q)
  /\ (edgeTriggers cfg dom m position RightEdge = false ->
      edgeTriggers cfg dom m position LeftEdge = true ->
      (distanceFromLeft dom m position <= 0)%Q ->
      (pos_x speed == - maxSpeed cfg)%Q).
Proof.
  intros He Hm Ha m speed. subst speed m.
  rewrite (calculateScrollSpeed_y cfg dom se position He),
          (calculateScrollSpeed_x cfg dom se position He).
  repeat split; intros; repeat match goal with
    | H : edgeTriggers _ _ _ _ _ = _ |- _ => rewrite H; clear H
    end;
    rewrite edgeSpeed_at_edge by assumption; reflexivity.
Qed.

Lemma pointer_beyond_edge_scrolls_at_max_speed_witness :
  edgeTriggers DEFAULT_AUTOSCROLL tallDom tallScrollMetrics (at_ 10 650)
    BottomEdge = true
  /\ (distanceFromBottom tallDom tallScrollMetrics (at_ 10 650) <= 0)%Q
  /\ (pos_y (calculateScrollSpeed DEFAULT_AUTOSCROLL tallDom (Some 100%nat)
               (at_ 10 650)) == 15)%Q.
Proof.
  assert (Hd : (distanceFromBottom tallDom tallScrollMetrics (at_ 10 650) <= 0)%Q)
    by discriminate.
  split; [reflexivity|]. split; [exact Hd|].
  assert (Hm : (0 <= maxSpeed DEFAULT_AUTOSCROLL)%Q) by discriminate.
  assert (Ha : (1 <= acceleration DEFAULT_AUTOSCROLL)%Q) by discriminate.
  exact (proj1 (pointer_beyond_edge_scrolls_at_max_speed DEFAULT_AUTOSCROLL
                  tallDom 100%nat (at_ 10 650) eq_refl Hm Ha) eq_refl Hd).
Defined.

(** ** The frame loop *)

Lemma stalled_updateScroll cfg dom refs position :
  stalled refs -> stalled (updateScroll cfg dom refs position).
Proof.
  intros [Hf Hs]. unfold updateScroll, stalled.
  destruct (enabled cfg); simpl; [|now split].
  rewrite Hf, andb_false_r.
  destruct (negb (speed_nonzero _)); simpl; now split.
Qed.

Lemma stalled_performScroll refs o :
  stalled refs -> performScroll refs o = (refs, None).
Proof.
  intros [Hf Hs]. unfold performScroll. rewrite Hs.
  now destruct (scrollElementRef refs).
Qed.

Lemma stalled_scrollStep cfg refs e :
  stalled refs ->
  stalled (scrollStep cfg refs e).1 /\ (scrollStep cfg refs e).2 = None.
Proof.
  intros H. destruct e as [dom position|o]; simpl.
  - split; [now apply stalled_updateScroll|reflexivity].
  - rewrite (stalled_performScroll _ _ H). now split.
Qed.

(** X19.  The scroll loop does not resume within a gesture: when the
    pointer leaves the edge zone while a frame handle is held, the
    auto-scroller is switched off with the handle still set; from then on
    no pointer update switches it on again and no animation frame scrolls
    or reports a delta, whatever the pointer does, until [stopScroll]
    clears the handle. *)
Theorem auto_scroll_does_not_resume
    (cfg : AutoScrollConfig) (dom : Dom) (refs : AutoScrollRefs)
    (position : Position) (events : list ScrollEvent) :
  enabled cfg = true ->
  animationFrameRef refs = true ->
  speed_nonzero (calculateScrollSpeed cfg dom (scrollElementRef refs) position)
  = false ->
  let off := updateScroll cfg dom refs position in
  stalled off
  /\ stalled (scrollRun cfg off events).1
  /\ (scrollRun cfg off events).2 = []
  /\ ~ stalled (stopScroll (scrollRun cfg off events).1).
Proof.
  intros He Hf Hz off.
  assert (Hl : stalled off).
  { subst off. unfold updateScroll, stalled. rewrite He, Hz, Hf. simpl.
    now split. }
  split; [exact Hl|].
  assert (Hrun : forall evs r, stalled r ->
            stalled (scrollRun cfg r evs).1 /\ (scrollRun cfg r evs).2 = []).
  { induction evs as [|e evs IH]; intros r Hr; simpl; [now split|].
    destruct (stalled_scrollStep cfg r e Hr) as [H1 H2].
    destruct (scrollStep cfg r e) as [r1 d]. simpl in H1, H2. subst d.
    destruct (IH r1 H1) as [H3 H4].
    destruct (scrollRun cfg r1 evs) as [r2 ds]. simpl in *. now split. }
  destruct (Hrun events off Hl) as [H1 H2].
  split; [exact H1|]. split; [exact H2|].
  intros [H _]. discriminate H.
Qed.

(** Scrolling starts near the bottom edge of the tall container, the
    pointer moves to the middle, comes back to the edge, and two frames
    pass: nothing scrolls. *)
Lemma auto_scroll_does_not_resume_witness :
  let scrolling :=
    updateScroll DEFAULT_AUTOSCROLL tallDom
      (initScrollContainer tallDom initialAutoScrollRefs 0%nat) (at_ 10 590) in
  isScrollingRef scrolling = true
  /\ animationFrameRef scrolling = true
  /\ (scrollRun DEFAULT_AUTOSCROLL
        (updateScroll DEFAULT_AUTOSCROLL tallDom scrolling (at_ 10 300))
        [SUpdate tallDom (at_ 10 590);
         SFrame (mkScrollOutcome true (at_ 0 50) (at_ 0 64));
         SFrame (mkScrollOutcome true (at_ 0 64) (at_ 0 78))]).2 = [].
Proof.
  intros scrolling. split; [reflexivity|]. split; [reflexivity|].
  exact (proj1 (proj2 (proj2 (auto_scroll_does_not_resume DEFAULT_AUTOSCROLL
           tallDom scrolling (at_ 10 300)
           [SUpdate tallDom (at_ 10 590);
            SFrame (mkScrollOutcome true (at_ 0 50) (at_ 0 64));
            SFrame (mkScrollOutcome true (at_ 0 64) (at_ 0 78))]
           eq_refl eq_refl eq_refl)))).
Defined.

Lemma speed_zero_components (s : Position) :
  speed_nonzero s = false -> (pos_x s == 0)%Q /\ (pos_y s == 0)%Q.
Proof.
  unfold speed_nonzero. rewrite orb_false_iff, !negb_false_iff.
  intros [Hx Hy]. split; now apply Qeq_bool_iff.
Qed.

Lemma animationFrame_active p o :
  scrollerActive p -> hasScrollBy o = true ->
  scrollerActive (animationFrame p o)
  /\ (pos_x (scrollOffset (animationFrame p o))
      == pos_x (scrollOffset p) + (pos_x (scrollAfter o) - pos_x (scrollBefore o)))%Q
  /\ (pos_y (scrollOffset (animationFrame p o))
      == pos_y (scrollOffset p) + (pos_y (scrollAfter o) - pos_y (scrollBefore o)))%Q
  /\ lastScrollPositionRef (autoScrollRefs (animationFrame p o)) = scrollAfter o
  /\ state (animationFrame p o) = state p.
Proof.
  intros ([se Hse] & Hs & Hn) Hb.
  unfold animationFrame, performScroll. rewrite Hse, Hs, Hn, Hb. simpl.
  destruct (speed_nonzero (actualDelta o)) eqn:Hd; simpl.
  - unfold scrollerActive. simpl.
    split; [eauto|]. split; [reflexivity|]. split; [reflexivity|]. now split.
  - apply speed_zero_components in Hd as [Hx Hy]. simpl in Hx, Hy.
    unfold scrollerActive. simpl.
    split; [eauto|]. split; [lra|]. split; [lra|]. now split.
Qed.

(** X20.  Scroll compensation adds up: while the auto-scroller is running,
    after any number of animation frames in which nothing else scrolled
    the container, the accumulated scroll offset has grown by exactly the
    distance the container scrolled (its scroll position after the last
    frame minus the one before the first frame), also when a frame hit the
    scroll boundary; the last scroll position is recorded, and the drag
    state is untouched. *)
Theorem scroll_offset_accumulates_actual_scroll
    (frames : list ScrollOutcome) (p : Provider) (start : Position) :
  scrollerActive p ->
  Forall (fun o => hasScrollBy o = true) frames ->
  framesChained start frames ->
  Peq (scrollOffset (animationFrames p frames))
      {| pos_x := pos_x (scrollOffset p)
                  + (pos_x (lastScrollAfter start frames) - pos_x start);
         pos_y := pos_y (scrollOffset p)
                  + (pos_y (lastScrollAfter start frames) - pos_y start) |}
  /\ state (animationFrames p frames) = state p
  /\ (frames <> [] ->
      lastScrollPositionRef (autoScrollRefs (animationFrames p frames))
      = lastScrollAfter start frames).
Proof.
  revert p start. unfold animationFrames, lastScrollAfter, Peq.
  induction frames as [|o frames IH]; intros p start Ha Hb Hc; simpl.
  - split; [split; ring|]. split; [reflexivity|]. congruence.
  - apply Forall_cons in Hb as [Hbo Hb]. destruct Hc as [Hstart Hc].
    destruct (animationFrame_active p o Ha Hbo) as (Ha1 & Hx & Hy & Hl & Hst).
    destruct (IH (animationFrame p o) (scrollAfter o) Ha1 Hb Hc)
      as ((Hx' & Hy') & Hst' & Hl').
    simpl in Hx', Hy'. rewrite Hstart in Hx, Hy.
    split; [split; [rewrite Hx', Hx; ring|rewrite Hy', Hy; ring]|].
    split; [congruence|]. intros _.
    destruct frames as [|o' frames']; [exact Hl|].
    apply Hl'. discriminate.
Qed.

Lemma scroll_offset_accumulates_actual_scroll_witness :
  scrollerActive draggingAOverB
  /\ framesChained (at_ 0 50)
       [mkScrollOutcome true (at_ 0 50) (at_ 0 64);
        mkScrollOutcome true (at_ 0 64) (at_ 0 70)]
  /\ Peq (scrollOffset (animationFrames draggingAOverB
            [mkScrollOutcome true (at_ 0 50) (at_ 0 64);
             mkScrollOutcome true (at_ 0 64) (at_ 0 70)]))
         {| pos_x := 0 + (0 - 0); pos_y := 0 + (70 - 50) |}.
Proof.
  assert (Ha : scrollerActive draggingAOverB).
  { split; [now exists 100%nat|]. split; reflexivity. }
  assert (Hc : framesChained (at_ 0 50)
                 [mkScrollOutcome true (at_ 0 50) (at_ 0 64);
                  mkScrollOutcome true (at_ 0 64) (at_ 0 70)]).
  { simpl. repeat split. }
  split; [exact Ha|]. split; [exact Hc|].
  refine (proj1 (scroll_offset_accumulates_actual_scroll _ draggingAOverB
                   (at_ 0 50) Ha _ Hc)).
  repeat constructor.
Defined.

(** ** Before activation *)

Lemma hookRun_app h evs1 evs2 :
  hookRun h (evs1 ++ evs2) = hookRun (hookRun h evs1) evs2.
Proof. unfold hookRun. apply fold_left_app. Qed.

(** X21.  A tap is not a drag: whatever pointer-down and touch-start
    events a hook received, once the pointer is released (or its track
    cancelled) the activation timer is cleared and the start position
    forgotten, so that the timer callback, should it still run, starts no
    drag: it leaves the provider untouched and notifies nothing. *)
Theorem released_pointer_never_starts_a_drag
    (cfg : Config) (dom : Dom) (p : Provider) (h : Sortable)
    (events : list HookEvent) :
  let released := hookRun h (events ++ [HPointerUp]) in
  activationTimeoutRef released = false
  /\ startPositionRef released = None
  /\ isActivatedRef released = false
  /\ activationTimeout cfg dom p released = (released, (p, [])).
Proof.
  intros released. subst released. rewrite hookRun_app.
  unfold hookRun at 1. simpl.
  unfold activationTimeout, handlePointerUp. simpl.
  repeat split. now destruct (elementRef _).
Qed.

Lemma disabled_hookStep h e :
  s_disabled h = true -> startPositionRef h = None ->
  s_disabled (hookStep h e) = true /\ startPositionRef (hookStep h e) = None
  /\ elementRef (hookStep h e) = elementRef h.
Proof.
  intros Hd Hs. destruct e as [pe|te|]; simpl.
  - unfold handlePointerDown. rewrite Hd. auto.
  - unfold handleTouchStart. rewrite Hd. auto.
  - auto.
Qed.

(** X22.  A disabled item cannot be picked up: for a hook that is disabled
    and holds no start position, no sequence of pointer-down, touch-start
    and pointer-up events records a start position, and the activation
    callback starts no drag. *)
Theorem disabled_hook_never_starts_a_drag
    (cfg : Config) (dom : Dom) (p : Provider) (h : Sortable)
    (events : list HookEvent) :
  s_disabled h = true ->
  startPositionRef h = None ->
  startPositionRef (hookRun h events) = None
  /\ activationTimeout cfg dom p (hookRun h events)
     = (hookRun h events, (p, [])).
Proof.
  revert h. unfold hookRun.
  induction events as [|e events IH]; intros h Hd Hs; simpl.
  - split; [exact Hs|]. unfold activationTimeout. rewrite Hs.
    now destruct (elementRef h).
  - destruct (disabled_hookStep h e Hd Hs) as (Hd' & Hs' & _).
    now apply IH.
Qed.

Lemma disabled_hook_never_starts_a_drag_witness :
  activationTimeout DEFAULT_CONFIG sampleDom sampleProvider
    (hookRun (mkSortable "b" 1 true (Some 1%nat) false None false None)
       [HPointerDown touchDownOnB; HTouchStart (mkTouchEvent [at_ 10 70])])
  = (hookRun (mkSortable "b" 1 true (Some 1%nat) false None false None)
       [HPointerDown touchDownOnB; HTouchStart (mkTouchEvent [at_ 10 70])],
     (sampleProvider, [])).
Proof.
  exact (proj2 (disabled_hook_never_starts_a_drag DEFAULT_CONFIG sampleDom
                  sampleProvider
                  (mkSortable "b" 1 true (Some 1%nat) false None false None)
                  [HPointerDown touchDownOnB;
                   HTouchStart (mkTouchEvent [at_ 10 70])]
                  eq_refl eq_refl)).
Defined.


(** ** The array utilities *)

Section ArrayUtilityFacts.
Context {T : Type} (undefined : T).
Implicit Types (a : list T) (x : T).

Lemma arrayRemove_in_range a (i : nat) x :
  a !! i = Some x -> arrayRemove a (Z.of_nat i) = delete i a.
Proof. intros H. unfold arrayRemove. now rewrite (splice_remove_one _ _ _ H). Qed.

Lemma arrayInsert_in_range a (i : nat) x :
  (i <= length a)%nat ->
  arrayInsert a (Z.of_nat i) x = take i a ++ x :: drop i a.
Proof. intros H. unfold arrayInsert. now apply splice_insert_one. Qed.

Lemma lookup_inserted a (i : nat) x :
  (i <= length a)%nat -> (take i a ++ x :: drop i a) !! i = Some x.
Proof.
  intros H. apply list_lookup_middle. now rewrite length_take_le.
Qed.

Lemma delete_inserted a (i : nat) x :
  (i <= length a)%nat -> delete i (take i a ++ x :: drop i a) = a.
Proof.
  intros H. rewrite delete_at_length by (now rewrite length_take_le).
  apply take_drop.
Qed.

Lemma insert_deleted a (i : nat) x :
  a !! i = Some x -> take i (delete i a) ++ x :: drop i (delete i a) = a.
Proof.
  intros H. pose proof (lookup_lt_Some _ _ _ H) as Hlt.
  rewrite delete_take_drop.
  rewrite take_app_length' by (rewrite length_take_le; lia).
  rewrite drop_app_length' by (rewrite length_take_le; lia).
  now apply take_drop_middle.
Qed.

(** X23.  Insert and remove are inverse to each other at an in-range
    index: inserting an item at [i] (0 <= i <= length) gives an array one
    longer that holds the item at [i], and removing index [i] again gives
    the original back; removing the element at [i] and inserting it at [i]
    gives the original back too. *)
Theorem insert_remove_round_trip (a : list T) (i : Z) (x : T) :
  0 <= i <= Z.of_nat (length a) ->
  length (arrayInsert a i x) = S (length a)
  /\ arrayInsert a i x !! Z.to_nat i = Some x
  /\ arrayRemove (arrayInsert a i x) i = a
  /\ (a !! Z.to_nat i = Some x -> arrayInsert (arrayRemove a i) i x = a).
Proof.
  intros Hi. set (n := Z.to_nat i).
  assert (Ei : i = Z.of_nat n) by (unfold n; lia).
  assert (Hn : (n <= length a)%nat) by lia.
  rewrite Ei. rewrite (arrayInsert_in_range a n x Hn).
  split.
  { rewrite length_app, length_take_le by lia. simpl.
    rewrite length_drop. lia. }
  split; [now apply lookup_inserted|].
  split.
  - rewrite (arrayRemove_in_range _ n x) by (now apply lookup_inserted).
    now apply delete_inserted.
  - intros Hx. rewrite (arrayRemove_in_range a n x Hx).
    pose proof (lookup_lt_Some _ _ _ Hx) as Hlt.
    rewrite arrayInsert_in_range by (rewrite length_delete by eauto; lia).
    now apply insert_deleted.
Qed.

(** X24.  [arrayMove] is remove followed by insert: for in-range indices,
    moving the element at [i] to [j] gives the same array as removing
    index [i] and inserting the removed element at [j]. *)
Theorem arrayMove_is_remove_then_insert (a : list T) (i j : Z) (x : T) :
  a !! Z.to_nat i = Some x ->
  0 <= i ->
  0 <= j < Z.of_nat (length a) ->
  arrayMove undefined a i j = arrayInsert (arrayRemove a i) j x.
Proof.
  intros Hx Hi Hj.
  set (n := Z.to_nat i) in *. set (m := Z.to_nat j).
  assert (Ei : i = Z.of_nat n) by (unfold n; lia).
  assert (Ej : j = Z.of_nat m) by (unfold m; lia).
  pose proof (lookup_lt_Some _ _ _ Hx) as Hlt.
  rewrite Ei, Ej.
  rewrite (arrayMove_in_range undefined a n m x Hx) by lia.
  rewrite (arrayRemove_in_range a n x Hx).
  rewrite arrayInsert_in_range by (rewrite length_delete by eauto; lia).
  reflexivity.
Qed.

(** X25.  A move can be undone: for in-range indices, moving the element
    at [i] to [j] and then the element at [j] back to [i] gives the
    original array. *)
Theorem arrayMove_back_restores (a : list T) (i j : Z) :
  0 <= i < Z.of_nat (length a) ->
  0 <= j < Z.of_nat (length a) ->
  arrayMove undefined (arrayMove undefined a i j) j i = a.
Proof.
  intros Hi Hj.
  set (n := Z.to_nat i). set (m := Z.to_nat j).
  assert (Ei : i = Z.of_nat n) by (unfold n; lia).
  assert (Ej : j = Z.of_nat m) by (unfold m; lia).
  assert (Hn : (n < length a)%nat) by lia.
  assert (Hm : (m < length a)%nat) by lia.
  destruct (lookup_lt_is_Some_2 a n Hn) as [x Hx].
  rewrite Ei, Ej.
  rewrite (arrayMove_in_range undefined a n m x Hx Hm).
  set (b := delete n a).
  assert (Hb : length b = (length a - 1)%nat) by (apply length_delete; eauto).
  assert (Hmb : (m <= length b)%nat) by lia.
  rewrite (arrayMove_in_range undefined (take m b ++ x :: drop m b) m n x).
  - rewrite (delete_inserted b m x Hmb). now apply insert_deleted.
  - now apply lookup_inserted.
  - rewrite length_app, length_take_le by lia. simpl. rewrite length_drop. lia.
Qed.

Lemma spliceStart_beyond (len : nat) (start : Z) :
  Z.of_nat len <= start -> spliceStart (Z.of_nat len) start = len.
Proof.
  intros H. unfold spliceStart. destruct (Z.ltb_spec start 0); lia.
Qed.

Lemma spliceStart_from_end (len : nat) (k : Z) :
  0 < k <= Z.of_nat len ->
  spliceStart (Z.of_nat len) (- k) = Z.to_nat (Z.of_nat len - k).
Proof.
  intros H. unfold spliceStart. destruct (Z.ltb_spec (- k) 0); lia.
Qed.

Lemma splice_remove_beyond a (start : Z) :
  Z.of_nat (length a) <= start -> splice a start 1 [] = (a, []).
Proof.
  intros H. unfold splice. rewrite spliceStart_beyond by exact H.
  assert (Hdc : spliceDeleteCount (Z.of_nat (length a)) (length a) 1 = 0%nat)
    by (unfold spliceDeleteCount; lia).
  rewrite Hdc. simpl. rewrite Nat.add_0_r, firstn_all, drop_all, app_nil_r.
  reflexivity.
Qed.

(** X26.  Out-of-range and negative indices, as [splice] clamps them:
    removing at an index at or beyond the length changes nothing; moving
    from such an index removes nothing and inserts [undefined], so the
    array grows by one; moving an element to an index at or beyond the
    last one puts it at the end; and a negative index counts from the end
    of the array. *)
Theorem out_of_range_indices_are_clamped (a : list T) (i j k : Z) (x : T) :
  (Z.of_nat (length a) <= i ->
     arrayRemove a i = a
     /\ arrayMove undefined a i j = arrayInsert a j undefined
     /\ length (arrayMove undefined a i j) = S (length a))
  /\ (a !! Z.to_nat i = Some x -> 0 <= i ->
      Z.of_nat (length a) - 1 <= j ->
      arrayMove undefined a i j = delete (Z.to_nat i) a ++ [x])
  /\ (0 < k <= Z.of_nat (length a) ->
      arrayRemove a (- k) = arrayRemove a (Z.of_nat (length a) - k)
      /\ arrayMove undefined a (- k) j
         = arrayMove undefined a (Z.of_nat (length a) - k) j).
Proof.
  split; [|split].
  - intros Hi. unfold arrayRemove, arrayMove, arrayInsert.
    rewrite (splice_remove_beyond a i Hi). simpl.
    split; [reflexivity|].
    destruct (splice a j 0 [undefined]) as [r rm] eqn:E.
    split; [reflexivity|].
    unfold splice in E. injection E as <- _.
    set (s := spliceStart (Z.of_nat (length a)) j).
    assert (Hs : (s <= length a)%nat).
    { unfold s, spliceStart. destruct (Z.ltb_spec j 0); lia. }
    assert (Hdc : spliceDeleteCount (Z.of_nat (length a)) s 0 = 0%nat)
      by (unfold spliceDeleteCount; lia).
    rewrite Hdc, Nat.add_0_r, length_app, length_take_le by lia.
    simpl. rewrite length_drop. lia.
  - intros Hx Hi Hj.
    set (n := Z.to_nat i) in *.
    assert (Ei : i = Z.of_nat n) by (unfold n; lia).
    pose proof (lookup_lt_Some _ _ _ Hx) as Hlt.
    unfold arrayMove. rewrite Ei, (splice_remove_one _ _ _ Hx). simpl.
    assert (Hb : length (delete n a) = (length a - 1)%nat)
      by (apply length_delete; eauto).
    unfold splice.
    assert (Hs : spliceStart (Z.of_nat (length (delete n a))) j
                 = length (delete n a)).
    { apply spliceStart_beyond. lia. }
    rewrite Hs.
    assert (Hdc : spliceDeleteCount (Z.of_nat (length (delete n a)))
                    (length (delete n a)) 0 = 0%nat)
      by (unfold spliceDeleteCount; lia).
    rewrite Hdc, Nat.add_0_r, firstn_all, drop_all. reflexivity.
  - intros Hk.
    assert (Hsplice : forall dc items,
      splice a (- k) dc items = splice a (Z.of_nat (length a) - k) dc items).
    { intros dc items. unfold splice.
      rewrite spliceStart_from_end by exact Hk.
      replace (spliceStart (Z.of_nat (length a)) (Z.of_nat (length a) - k))
        with (Z.to_nat (Z.of_nat (length a) - k)); [reflexivity|].
      unfold spliceStart.
      destruct (Z.ltb_spec (Z.of_nat (length a) - k) 0); lia. }
    unfold arrayRemove, arrayMove. now rewrite !Hsplice.
Qed.
End ArrayUtilityFacts.

Lemma insert_remove_round_trip_witness :
  0 <= 1 <= Z.of_nat (length ["a"; "c"])
  /\ arrayRemove (arrayInsert ["a"; "c"] 1 "b") 1 = ["a"; "c"].
Proof.
  assert (H : 0 <= 1 <= Z.of_nat (length ["a"; "c"])) by (simpl; lia).
  split; [exact H|].
  exact (proj1 (proj2 (proj2 (insert_remove_round_trip ["a"; "c"] 1 "b" H)))).
Defined.

Lemma arrayMove_is_remove_then_insert_witness :
  ["a"; "b"; "c"] !! Z.to_nat 0 = Some "a"
  /\ arrayMove "" ["a"; "b"; "c"] 0 2
     = arrayInsert (arrayRemove ["a"; "b"; "c"] 0) 2 "a".
Proof.
  split; [reflexivity|].
  apply (arrayMove_is_remove_then_insert "" ["a"; "b"; "c"] 0 2 "a" eq_refl);
    simpl; lia.
Defined.

Lemma arrayMove_back_restores_witness :
  arrayMove "" (arrayMove "" ["a"; "b"; "c"; "d"] 0 2) 2 0
  = ["a"; "b"; "c"; "d"].
Proof.
  apply (arrayMove_back_restores "" ["a"; "b"; "c"; "d"] 0 2); simpl; lia.
Defined.

Lemma out_of_range_indices_are_clamped_witness :
  Z.of_nat (length ["a"; "b"]) <= 7
  /\ arrayMove "" ["a"; "b"] 7 1 = ["a"; ""; "b"].
Proof.
  assert (H : Z.of_nat (length ["a"; "b"]) <= 7) by (simpl; lia).
  split; [exact H|].
  exact (proj1 (proj2 (proj1 (out_of_range_indices_are_clamped ""
                  ["a"; "b"] 7 1 1 "") H))).
Defined.

(** ** The example pages *)

Lemma dragEndEvents_app out1 out2 :
  dragEndEvents (out1 ++ out2) = dragEndEvents out1 ++ dragEndEvents out2.
Proof.
  induction out1 as [|n out1 IH]; [reflexivity|].
  destruct n; simpl; now rewrite ?IH.
Qed.

Lemma dragEndEvents_aliases out ev :
  ev ∈ dragEndEvents out -> ev_activeIndex ev = None /\ ev_overIndex ev = None.
Proof.
  induction out as [|n out IH]; simpl; [intros H; inversion H|].
  destruct n; try exact IH.
  intros H. apply elem_of_cons in H as [->|H]; [now split|now apply IH].
Qed.

Section ExampleHandlerFacts.
Context {T : Type} (undefined : T).

Lemma listHandleDragEnd_fold (events : list DragEndEvent) (items : list T) :
  (forall ev, ev ∈ events -> ev_activeIndex ev = None /\ ev_overIndex ev = None) ->
  fold_left (listHandleDragEnd undefined) events items = items.
Proof.
  revert items. induction events as [|ev events IH]; intros items H; simpl.
  - reflexivity.
  - destruct (H ev) as [Ha Ho]; [apply elem_of_cons; now left|].
    unfold listHandleDragEnd at 2. rewrite Ha, Ho. simpl.
    apply IH. intros ev' Hev'. apply H. apply elem_of_cons. now right.
Qed.

(** X27.  The drag-end handler of the SimpleList, MediaGrid and
    HandleExample pages reads the aliases [activeIndex] and [overIndex],
    which the event object built by [endDrag] does not carry; so for
    every run of the provider, applying that handler to all drag-end
    events emitted leaves the list as it was: these pages never reorder. *)
Theorem example_pages_never_reorder
    (cfg : Config) (p : Provider) (inputs : list (Dom * Input))
    (items : list T) :
  fold_left (listHandleDragEnd undefined)
            (dragEndEvents (run cfg p inputs).2) items
  = items.
Proof.
  apply listHandleDragEnd_fold. intros ev. apply dragEndEvents_aliases.
Qed.

Variable withMediaIndex : T -> Z -> T.
Variable mediaIndex : T -> Z.
Hypothesis mediaIndex_with :
  forall item idx, mediaIndex (withMediaIndex item idx) = idx.

Lemma dragEndEvents_endDrag cfg p c :
  dragEndEvents (endDrag cfg p c).2
  = if isDragging (state p)
    then [dragEndEvent (endFromIndex p) (endToIndex p c) c]
    else [].
Proof.
  unfold endDrag. destruct (isDragging (state p)); simpl; [|reflexivity].
  rewrite dragEndEvents_app. unfold haptic.
  now destruct (hapticFeedback cfg).
Qed.

(** X28.  The drag-end handler of the profile grid: an event of a cancel
    path, or one whose indices are equal, leaves the items as they are and
    does not call [onItemsReorder]; an event with [cancelled = false] and
    different in-range indices yields a list of the same length in which
    every item's [media_index] is its position, and hands that list to
    [onItemsReorder]. *)
Theorem grid_handler_reindexes_or_ignores
    (cfg : Config) (dom : Dom) (p : Provider) (i : Input)
    (items : list T) (ev : DragEndEvent) :
  (isCancelInput i = true -> ev ∈ dragEndEvents (step cfg dom p i).2 ->
     gridHandleDragEnd undefined withMediaIndex items ev = (items, None))
  /\ (ev_fromIndex ev = ev_toIndex ev ->
      gridHandleDragEnd undefined withMediaIndex items ev = (items, None))
  /\ (ev_cancelled ev = false ->
      ev_fromIndex ev <> ev_toIndex ev ->
      0 <= ev_fromIndex ev < Z.of_nat (length items) ->
      0 <= ev_toIndex ev < Z.of_nat (length items) ->
      exists newItems,
        gridHandleDragEnd undefined withMediaIndex items ev
        = (newItems, Some newItems)
        /\ length newItems = length items
        /\ forall (k : nat) item,
             newItems !! k = Some item -> mediaIndex item = Z.of_nat k).
Proof.
  split; [|split].
  - intros Hc Hev.
    assert (Hcan : ev_cancelled ev = true).
    { destruct (isDragging (state p)) eqn:Hd.
      - rewrite (cancel_input_ends_cancelled cfg dom p i Hd Hc) in Hev.
        rewrite dragEndEvents_endDrag, Hd in Hev.
        apply list_elem_of_singleton in Hev. now subst ev.
      - assert (Hout : (step cfg dom p i).2 = []).
        { destruct i as [| | | |e| |]; simpl in Hc; try discriminate; simpl.
          - unfold windowListener. now rewrite Hd.
          - unfold controlsCancel, endDrag. now rewrite Hd. }
        rewrite Hout in Hev. inversion Hev. }
    unfold gridHandleDragEnd. now rewrite Hcan.
  - intros He. unfold gridHandleDragEnd.
    apply Z.eqb_eq in He. rewrite He. now rewrite orb_true_r.
  - intros Hc Hne Hf Ht. unfold gridHandleDragEnd.
    apply Z.eqb_neq in Hne. rewrite Hc, Hne. simpl.
    eexists. split; [reflexivity|]. split.
    + unfold reindex. rewrite length_imap.
      set (n := Z.to_nat (ev_fromIndex ev)). set (m := Z.to_nat (ev_toIndex ev)).
      assert (Hn : (n < length items)%nat) by lia.
      destruct (lookup_lt_is_Some_2 items n Hn) as [x Hx].
      replace (ev_fromIndex ev) with (Z.of_nat n) by (unfold n; lia).
      replace (ev_toIndex ev) with (Z.of_nat m) by (unfold m; lia).
      rewrite (arrayMove_in_range undefined items n m x Hx) by lia.
      rewrite length_app, length_take_le
        by (rewrite length_delete by eauto; lia).
      simpl. rewrite length_drop, length_delete by eauto. lia.
    + intros k item Hk. unfold reindex in Hk.
      apply list_lookup_imap_Some in Hk as (y & _ & ->).
      apply mediaIndex_with.
Qed.
End ExampleHandlerFacts.

Lemma grid_handler_reindexes_or_ignores_witness :
  isCancelInput (IWindow WPointerCancel) = true
  /\ dragEndEvent 0 0 true
     ∈ dragEndEvents (step DEFAULT_CONFIG sampleDom draggingAOverB
                        (IWindow WPointerCancel)).2
  /\ gridHandleDragEnd (0, "") (fun item idx => (idx, item.2))
       [(0, "p"); (1, "q")] (dragEndEvent 0 0 true)
     = ([(0, "p"); (1, "q")], None).
Proof.
  assert (Hin : dragEndEvent 0 0 true
                ∈ dragEndEvents (step DEFAULT_CONFIG sampleDom draggingAOverB
                                   (IWindow WPointerCancel)).2).
  { apply list_elem_of_singleton. reflexivity. }
  split; [reflexivity|]. split; [exact Hin|].
  exact (proj1 (grid_handler_reindexes_or_ignores (0, "")
                  (fun item idx => (idx, item.2)) fst
                  (fun item idx => eq_refl)
                  DEFAULT_CONFIG sampleDom draggingAOverB
                  (IWindow WPointerCancel) [(0, "p"); (1, "q")]
                  (dragEndEvent 0 0 true)) eq_refl Hin).
Defined.

(** ** The scroll container *)

Lemma walkAncestors_spec doc chain :
  (exists before a after,
     chain = before ++ a :: after
     /\ Forall passedOver before
     /\ ((isIonContent a = true
          /\ walkAncestors doc chain = ionContentResult a)
         \/ (isIonContent a = false /\ isScrollable a = true
             /\ walkAncestors doc chain
                = {| sc_element := Some (an_element a);
                     sc_scrollElement := Some (an_element a) |})))
  \/ (Forall passedOver chain
      /\ walkAncestors doc chain
         = {| sc_element := Some doc; sc_scrollElement := Some doc |}).
Proof.
  induction chain as [|a chain IH]; simpl.
  - right. split; [constructor|reflexivity].
  - destruct (isIonContent a) eqn:Ei.
    + left. exists [], a, chain. split; [reflexivity|].
      split; [constructor|]. left. now split.
    + destruct (isScrollable a) eqn:Es.
      * left. exists [], a, chain. split; [reflexivity|].
        split; [constructor|]. right. now split.
      * destruct IH as [(before & b & after & -> & Hb & Hres)|[Hall Hres]].
        -- left. exists (a :: before), b, after. split; [reflexivity|].
           split; [constructor; [now split|exact Hb]|exact Hres].
        -- right. split; [constructor; [now split|exact Hall]|exact Hres].
Qed.

(** X29.  The scroll container found for an element is the nearest
    ancestor (the element included) that is an ION-CONTENT or a
    scrollable element with overflowing content, and the document element
    when there is none.  For a non-null start the result always names an
    element, and its scroll element is missing only for an ION-CONTENT
    that offers [getScrollElement] (to be resolved asynchronously); for a
    null start both are missing. *)
Theorem scroll_container_is_nearest_qualifying_ancestor
    (doc : Element) (chain : list Ancestor) :
  let found := findScrollableElement doc (Some chain) in
  findScrollableElement doc None
  = {| sc_element := None; sc_scrollElement := None |}
  /\ is_Some (sc_element found)
  /\ ((exists before a after,
         chain = before ++ a :: after
         /\ Forall passedOver before
         /\ (isIonContent a = true \/ isScrollable a = true)
         /\ sc_element found = Some (an_element a))
      \/ (Forall passedOver chain
          /\ found = {| sc_element := Some doc; sc_scrollElement := Some doc |}))
  /\ (sc_scrollElement found = None ->
      exists a, a ∈ chain /\ isIonContent a = true
                /\ hasGetScrollElement a = true
                /\ sc_element found = Some (an_element a)).
Proof.
  intros found. subst found. simpl.
  split; [reflexivity|].
  assert (Hion : forall a,
    sc_element (ionContentResult a) = Some (an_element a)
    /\ (sc_scrollElement (ionContentResult a) = None ->
        hasGetScrollElement a = true)).
  { intros a. unfold ionContentResult.
    destruct (hasGetScrollElement a); [now split|].
    destruct (shadowRoot a) as [s|]; [destruct (firstQuery s)|];
      simpl; split; try reflexivity; discriminate. }
  destruct (walkAncestors_spec doc chain)
    as [(before & a & after & Hchain & Hb & Hres)|[Hall Hres]].
  - assert (Hin : a ∈ chain).
    { rewrite Hchain. apply elem_of_app. right. apply elem_of_cons. now left. }
    destruct Hres as [[Hi ->]|(Hi & Hs & ->)].
    + destruct (Hion a) as [He Hn].
      split; [rewrite He; eauto|]. split.
      * left. exists before, a, after. auto.
      * intros Hnone. exists a. auto.
    + simpl. split; [eauto|]. split.
      * left. exists before, a, after. auto.
      * discriminate.
  - rewrite Hres. simpl. split; [eauto|]. split; [now right|discriminate].
Qed.

(** A plain block inside an ION-CONTENT that offers [getScrollElement]. *)
Lemma scroll_container_is_nearest_qualifying_ancestor_witness :
  sc_scrollElement
    (findScrollableElement 0%nat
       (Some [mkAncestor 5%nat "DIV" false None "visible" "visible"
                tallScrollMetrics;
              mkAncestor 6%nat "ION-CONTENT" true None "visible" "visible"
                tallScrollMetrics])) = None
  /\ exists a,
       isIonContent a = true
       /\ sc_element
            (findScrollableElement 0%nat
               (Some [mkAncestor 5%nat "DIV" false None "visible" "visible"
                        tallScrollMetrics;
                      mkAncestor 6%nat "ION-CONTENT" true None "visible"
                        "visible" tallScrollMetrics]))
          = Some (an_element a).
Proof.
  split; [reflexivity|].
  destruct (proj2 (proj2 (proj2
              (scroll_container_is_nearest_qualifying_ancestor 0%nat
                 [mkAncestor 5%nat "DIV" false None "visible" "visible"
                    tallScrollMetrics;
                  mkAncestor 6%nat "ION-CONTENT" true None "visible" "visible"
                    tallScrollMetrics]))) eq_refl)
    as (a & _ & Hi & _ & He).
  exists a. split; [exact Hi|exact He].
Defined.
